(** * jfsh: the mpv player-control subsystem

    A shallow embedding of [internal/mpv/mpv.go] and [internal/mpv/play.go]:
    the version gate [isOldMpv], the command encoder ([send] and the five
    command builders), the playlist construction and the event loop of
    [Play]; and of the report methods of [jellyfin/client.go].  Go strings
    are byte strings ([string]), Go [int]/[int64] are [Z], [float64] is the
    binary64 instance of [SpecFloat.spec_float].  What the program does to
    the outside (socket writes, remote calls, log lines) is a trace of
    effects; what the outside answers (write results, random draws, clock
    readings, remote results) is an environment. *)

From Stdlib Require Import ZArith List String Ascii Bool Lia Permutation.
From Stdlib Require Import Floats.SpecFloat Numbers.DecimalString.
Import ListNotations.
Set Warnings "-register-all".
Open Scope string_scope.
Open Scope Z_scope.

(** ** Go library functions used by the sources *)

Module GoLib.

(** [bytes.IndexByte]: index of the first [c] in [s], or -1. *)
Fixpoint IndexByte (s : string) (c : ascii) : Z :=
  match s with
  | EmptyString => -1
  | String a rest =>
      if Ascii.eqb a c then 0
      else match IndexByte rest c with
           | Zneg _ => -1
           | i => i + 1
           end
  end.

(** The slice expression [s[:n]]. *)
Definition slice_to (s : string) (n : Z) : string :=
  substring 0 (Z.to_nat n) s.

Definition byte_of (a : ascii) : Z := Z.of_N (N_of_ascii a).

Definition in_range (lo hi b : Z) : bool := (lo <=? b) && (b <=? hi).

(** [utf8.DecodeRune] on the front of [s]: the rune and its width in
    bytes.  An invalid or truncated encoding decodes to [RuneError]
    (U+FFFD) of width 1. *)
Definition RuneError : Z := 0xFFFD.

Definition DecodeRune (s : string) : Z * nat :=
  match s with
  | EmptyString => (RuneError, 0%nat)
  | String a0 r0 =>
      let b0 := byte_of a0 in
      if b0 <? 0x80 then (b0, 1%nat)
      else if in_range 0xC2 0xDF b0 then
        match r0 with
        | String a1 _ =>
            let b1 := byte_of a1 in
            if in_range 0x80 0xBF b1
            then (Z.lor (Z.shiftl (Z.land b0 0x1F) 6) (Z.land b1 0x3F), 2%nat)
            else (RuneError, 1%nat)
        | _ => (RuneError, 1%nat)
        end
      else if in_range 0xE0 0xEF b0 then
        match r0 with
        | String a1 (String a2 _) =>
            let b1 := byte_of a1 in
            let b2 := byte_of a2 in
            let lo := if b0 =? 0xE0 then 0xA0 else 0x80 in
            let hi := if b0 =? 0xED then 0x9F else 0xBF in
            if in_range lo hi b1 && in_range 0x80 0xBF b2
            then (Z.lor (Z.shiftl (Z.land b0 0x0F) 12)
                    (Z.lor (Z.shiftl (Z.land b1 0x3F) 6) (Z.land b2 0x3F)),
                  3%nat)
            else (RuneError, 1%nat)
        | _ => (RuneError, 1%nat)
        end
      else if in_range 0xF0 0xF4 b0 then
        match r0 with
        | String a1 (String a2 (String a3 _)) =>
            let b1 := byte_of a1 in
            let b2 := byte_of a2 in
            let b3 := byte_of a3 in
            let lo := if b0 =? 0xF0 then 0x90 else 0x80 in
            let hi := if b0 =? 0xF4 then 0x8F else 0xBF in
            if in_range lo hi b1 && in_range 0x80 0xBF b2
               && in_range 0x80 0xBF b3
            then (Z.lor (Z.shiftl (Z.land b0 0x07) 18)
                    (Z.lor (Z.shiftl (Z.land b1 0x3F) 12)
                       (Z.lor (Z.shiftl (Z.land b2 0x3F) 6)
                          (Z.land b3 0x3F))),
                  4%nat)
            else (RuneError, 1%nat)
        | _ => (RuneError, 1%nat)
        end
      else (RuneError, 1%nat)
  end.

(** [unicode.IsSpace]. *)
Definition IsSpace (r : Z) : bool :=
  in_range 0x09 0x0D r || (r =? 0x20) || (r =? 0x85) || (r =? 0xA0)
  || (r =? 0x1680) || in_range 0x2000 0x200A r || (r =? 0x2028)
  || (r =? 0x2029) || (r =? 0x202F) || (r =? 0x205F) || (r =? 0x3000).

(** [bytes.Fields]: the maximal runs of non-space runes.  [skip] counts the
    bytes still to consume of the rune being read; [cur] is the field being
    built when [infield] holds. *)
Fixpoint fields_from (s : string) (skip : nat) (infield : bool)
  (cur : string) : list string :=
  match s with
  | EmptyString => if infield then [cur] else []
  | String a rest =>
      match skip with
      | S k =>
          if infield then fields_from rest k true (cur ++ String a "")
          else fields_from rest k false ""
      | O =>
          let '(r, w) := DecodeRune s in
          if IsSpace r then
            (if infield then [cur] else [])
              ++ fields_from rest (Nat.pred w) false ""
          else fields_from rest (Nat.pred w) true
                 ((if infield then cur else "") ++ String a "")
      end
  end.

Definition Fields (s : string) : list string := fields_from s 0 false "".

(** [strings.TrimPrefix] for a one-byte prefix. *)
Definition TrimPrefix1 (s : string) (c : ascii) : string :=
  match s with
  | String a rest => if Ascii.eqb a c then rest else s
  | EmptyString => s
  end.

(** [strings.Split] with a one-byte separator; never returns the empty
    list. *)
Fixpoint Split1 (s : string) (sep : ascii) : list string :=
  match s with
  | EmptyString => [""]
  | String a rest =>
      if Ascii.eqb a sep then "" :: Split1 rest sep
      else match Split1 rest sep with
           | hd :: tl => String a hd :: tl
           | [] => [String a ""]
           end
  end.

Definition digit_of (a : ascii) : option Z :=
  let b := byte_of a in
  if in_range 48 57 b then Some (b - 48) else None.

Fixpoint parse_digits (s : string) (acc : Z) : option Z :=
  match s with
  | EmptyString => Some acc
  | String a rest =>
      match digit_of a with
      | Some d => parse_digits rest (acc * 10 + d)
      | None => None
      end
  end.

Definition minInt64 : Z := - 2 ^ 63.
Definition maxInt64 : Z := 2 ^ 63 - 1.

(** Arithmetic of the Go types [int] and [int64] (64 bits, two's
    complement). *)
Definition wrap_int (n : Z) : Z := (n + 2 ^ 63) mod 2 ^ 64 - 2 ^ 63.

(** [strconv.Atoi] on a 64-bit platform: an optional sign, then one or more
    decimal digits; [None] stands for a syntax or a range error. *)
Definition Atoi (s : string) : option Z :=
  let '(neg, body) :=
    match s with
    | String "-" rest => (true, rest)
    | String "+" rest => (false, rest)
    | _ => (false, s)
    end in
  match body with
  | EmptyString => None
  | _ =>
      match parse_digits body 0 with
      | Some n =>
          let v := if neg then - n else n in
          if (minInt64 <=? v) && (v <=? maxInt64) then Some v else None
      | None => None
      end
  end.

End GoLib.

(** ** float64 and time *)

Module Float64.
Import GoLib.

(** IEEE 754 binary64. *)
Definition float64 : Type := spec_float.
Definition prec : Z := 53.
Definition emax : Z := 1024.

(** The conversion [float64(n)] of an integer: round to nearest even. *)
Definition of_int (n : Z) : float64 := binary_normalize prec emax n 0 false.

Definition mul (x y : float64) : float64 := SFmul prec emax x y.
Definition div (x y : float64) : float64 := SFdiv prec emax x y.
Definition eqb (x y : float64) : bool := SFeqb x y.
Definition ltb (x y : float64) : bool := SFltb x y.
Definition leb (x y : float64) : bool := SFleb x y.
Definition zero : float64 := S754_zero false.

Definition is_finite (x : float64) : bool :=
  match x with
  | S754_zero _ | S754_finite _ _ _ => true
  | _ => false
  end.

(** The conversion [int64(x)]: the fraction is discarded (truncation towards
    zero).  For NaN, the infinities and values outside int64 the Go
    specification leaves the result to the implementation; amd64 gives the
    smallest int64, which is what is modelled. *)
Definition to_int64 (x : float64) : Z :=
  match x with
  | S754_zero _ => 0
  | S754_finite s m e =>
      let mag := Z.shiftl (Zpos m) e in
      let v := if s then - mag else mag in
      if (minInt64 <=? v) && (v <=? maxInt64) then v else minInt64
  | _ => minInt64
  end.

Definition dec_of (n : Z) : string := NilZero.string_of_uint (N.to_uint (Z.to_N n)).

(** [strconv.FormatFloat(x, 'f', 6, 64)]: the exact value rounded half to
    even at the sixth decimal. *)
Definition FormatFloat_f6 (x : float64) : string :=
  let sign (s : bool) := if s then "-" else "" in
  let render (s : bool) (q : Z) :=
    sign s ++ dec_of (q / 10 ^ 6) ++ "."
    ++ substring 1 6 (dec_of (10 ^ 6 + q mod 10 ^ 6)) in
  match x with
  | S754_nan => "NaN"
  | S754_infinity s => if s then "-Inf" else "+Inf"
  | S754_zero s => render s 0
  | S754_finite s m e =>
      let num := Zpos m * 10 ^ 6 * 2 ^ Z.max e 0 in
      let den := 2 ^ Z.max (- e) 0 in
      let q := num / den in
      let r := num mod den in
      let q := if 2 * r <? den then q
               else if 2 * r >? den then q + 1
               else if Z.even q then q else q + 1 in
      render s q
  end.

End Float64.

Module GoTime.
Import GoLib.

(** A [time.Time] as nanoseconds since the Unix epoch; [time.Time{}] is
    January 1 of year 1. *)
Definition Time : Type := Z.
Definition Second : Z := 1000000000.
Definition zeroTime : Time := - 62135596800 * Second.

(** [t.Sub(u)]: the difference, saturated to the range of a Duration. *)
Definition Sub (t u : Time) : Z :=
  let d := t - u in
  if d <? minInt64 then minInt64
  else if d >? maxInt64 then maxInt64
  else d.

End GoTime.

(** ** mpv.go *)

Module Mpv.
Import GoLib Float64 GoTime.

(** What [exec.Command("mpv", "--version").CombinedOutput()] gave. *)
Inductive exec_result :=
| ExecOk (output : string)
| ExecErr (output : string).

(** The loop [for i := range 3] of [isOldMpv] over [parts] and [target]:
    components are converted one at a time and the first one that differs
    from the target decides. *)
Fixpoint compare_parts (parts : list string) (target : list Z) : bool :=
  match parts, target with
  | p :: parts', t :: target' =>
      match Atoi p with
      | None => false
      | Some value =>
          if value <? t then true
          else if value >? t then false
          else compare_parts parts' target'
      end
  | _, _ => false
  end.

Definition nl : ascii := "010"%char.

Definition isOldMpv (r : exec_result) : bool :=
  match r with
  | ExecErr _ => false
  | ExecOk output =>
      let idx := IndexByte output nl in
      if idx =? -1 then false
      else
        let output := slice_to output idx in
        let fields := Fields output in
        if (Z.of_nat (List.length fields) <? 2) then false
        else
          let version := nth 1 fields "" in
          let version := TrimPrefix1 version "v" in
          let version := nth 0 (Split1 version "-") "" in
          let parts := Split1 version "." in
          if negb (Z.of_nat (List.length parts) =? 3) then false
          else compare_parts parts [0; 38; 0]
  end.


(** Go values of type [any] that travel in commands and in the [data]
    field of a message. *)
Inductive any :=
| ANil
| ABool (b : bool)
| AInt (n : Z)
| AFloat (x : float64)
| AString (s : string)
| AList (l : list any)
| AMap (kvs : list (string * any)).

(** The JSON text of a value, as its syntax tree. *)
Inductive json :=
| JNull
| JBool (b : bool)
| JInt (n : Z)
| JFloat (x : float64)
| JString (s : string)
| JArray (l : list json)
| JObject (fields : list (string * json)).

(** [json.Marshal] of an [any]: fails on a float that is NaN or infinite.
    Maps are kept with their keys in sorted order, as Marshal writes
    them. *)
Fixpoint marshal_any (v : any) : option json :=
  match v with
  | ANil => Some JNull
  | ABool b => Some (JBool b)
  | AInt n => Some (JInt n)
  | AFloat x => if is_finite x then Some (JFloat x) else None
  | AString s => Some (JString s)
  | AList l =>
      let fix go (l : list any) : option (list json) :=
        match l with
        | [] => Some []
        | v :: l' =>
            match marshal_any v, go l' with
            | Some j, Some js => Some (j :: js)
            | _, _ => None
            end
        end in
      option_map JArray (go l)
  | AMap kvs =>
      let fix go (kvs : list (string * any)) : option (list (string * json)) :=
        match kvs with
        | [] => Some []
        | (k, v) :: kvs' =>
            match marshal_any v, go kvs' with
            | Some j, Some js => Some ((k, j) :: js)
            | _, _ => None
            end
        end in
      option_map JObject (go kvs)
  end.

Record request := {
  Command : any;   (* `json:"command"` *)
  ID : Z           (* `json:"request_id,omitempty"` *)
}.

(** [json.Marshal] of a [request]: [omitempty] leaves [request_id] out
    when [ID] is the zero value. *)
Definition marshal_request (req : request) : option json :=
  match marshal_any (Command req) with
  | None => None
  | Some cmd =>
      Some (JObject (("command", cmd)
                     :: (if ID req =? 0 then [] else [("request_id", JInt (ID req))])))
  end.

Record message := {
  Error : string;
  msgID : Z;
  Event : string;
  Name : string;
  Reason : string;
  Data : any;
  PlaylistID : Z
}.

(** One line read by the scanner, with what [json.Unmarshal] makes of it. *)
Inductive line :=
| EmptyLine
| BadLine (raw : string)
| MsgLine (msg : message).

(** The [mpv] struct.  The socket, the subprocess and the socket path are
    only acted on through [send] and [close]; the scanner is the finite
    sequence of lines it yields before [Scan] returns false, with the error
    [scanner.Err()] then reports. *)
Record mpv := {
  oldMpv : bool;
  scanner : list line;
  scannerErr : bool
}.

Inductive level := Debug | Info | Warn | Error_.

Inductive report_kind := Start | Progress | Stopped.

Record Item := { ItemId : string; ItemName : string }.

(** What the program does to the outside, in order. *)
Inductive effect :=
| Wrote (data : json) (ok : bool)
| Reported (kind : report_kind) (item : Item) (ticks : Z) (ok : bool)
| FetchedSegments (item : Item)
| Logged (lvl : level) (text : string)
| Closed.

(** The outside as the program meets it: each of the first five fields
    answers the k-th call of its kind ([rand.Intn(1000)] is the answer
    modulo 1000); [skip_segments] is the configured list; the last four are
    the helpers of the client package, which is not part of the sources. *)
Record Env := {
  rand_Intn : nat -> Z;
  conn_Write : nat -> bool;
  time_Now : nat -> Time;
  report_result : nat -> bool;
  media_segments : nat -> Item -> list (Z * Z) * bool;
  skip_segments : list string;
  GetStreamingURL : string -> Item -> string;
  GetResumePosition : Item -> Z;
  GetMediaTitle : Item -> string;
  GetExternalSubtitleStreams : Item -> list (string * string * string)
}.

(** How many calls of each kind the program has made. *)
Record World := {
  n_rand : nat;
  n_write : nat;
  n_clock : nat;
  n_remote : nat
}.

Definition world0 : World :=
  {| n_rand := 0; n_write := 0; n_clock := 0; n_remote := 0 |}.

(** Computations that act on the outside: a result, the new counters and
    the effects performed, oldest first. *)
Definition M (A : Type) : Type := World -> A * World * list effect.

Definition ret {A} (a : A) : M A := fun w => (a, w, []).

Definition bind {A B} (m : M A) (k : A -> M B) : M B :=
  fun w =>
    let '(a, w1, t1) := m w in
    let '(b, w2, t2) := k a w1 in
    (b, w2, (t1 ++ t2)%list).

Declare Scope m_scope.
Delimit Scope m_scope with M.
Notation "x <- m ;; k" := (bind m (fun x => k))
  (at level 61, m at next level, right associativity) : m_scope.
Notation "m ;;; k" := (bind m (fun _ => k))
  (at level 61, right associativity) : m_scope.
Open Scope m_scope.

Definition emit (e : effect) : M unit := fun w => (tt, w, [e]).

Definition slog (l : level) (text : string) : M unit := emit (Logged l text).

Definition draw_rand (env : Env) : M Z :=
  fun w => (rand_Intn env (n_rand w) mod 1000,
            {| n_rand := S (n_rand w); n_write := n_write w;
               n_clock := n_clock w; n_remote := n_remote w |},
            []).

Definition write_conn (env : Env) (data : json) : M bool :=
  fun w => let ok := conn_Write env (n_write w) in
           (ok,
            {| n_rand := n_rand w; n_write := S (n_write w);
               n_clock := n_clock w; n_remote := n_remote w |},
            [Wrote data ok]).

Definition read_clock (env : Env) : M Time :=
  fun w => (time_Now env (n_clock w),
            {| n_rand := n_rand w; n_write := n_write w;
               n_clock := S (n_clock w); n_remote := n_remote w |},
            []).

Inductive error :=
| ErrMarshal
| ErrWrite
| ErrRemote
| ErrCreate
| ErrObserve (cause : error)
| ErrPlayFile (cause : error)
| ErrUnknownPlaylistID (id : Z)
| ErrRead.

(** [(c *mpv) send]. *)
Definition send (env : Env) (c : mpv) (command : list any) : M (option error) :=
  id <- draw_rand env ;;
  let req := {| Command := AList command; ID := id |} in
  match marshal_request req with
  | None => ret (Some ErrMarshal)
  | Some data =>
      ok <- write_conn env data ;;
      if ok then slog Debug "sent" ;;; ret None
      else ret (Some ErrWrite)
  end.

Definition observeProperty (env : Env) (c : mpv) (name : string) :=
  send env c [AString "observe_property"; AInt 1; AString name].

Definition seekTo (env : Env) (c : mpv) (pos : float64) :=
  send env c [AString "seek"; AFloat pos; AString "absolute"].

Definition prependFile (env : Env) (c : mpv) (url title : string) : M (option error) :=
  if oldMpv c then
    slog Warn "mpv version is < 0.38, refusing to prepend file" ;;; ret None
  else
    let cmd := [AString "loadfile"; AString url; AString "insert-at"; AInt 0;
                AMap [("force-media-title", AString title)]] in
    send env c cmd.

Definition appendFile (env : Env) (c : mpv) (url title : string) : M (option error) :=
  let cmd := [AString "loadfile"; AString url; AString "append"] in
  let cmd := if negb (oldMpv c) then (cmd ++ [AInt 0])%list else cmd in
  let cmd := (cmd ++ [AMap [("force-media-title", AString title)]])%list in
  send env c cmd.

Definition playFile (env : Env) (c : mpv) (url title : string) (start : float64)
  : M (option error) :=
  let cmd := [AString "loadfile"; AString url; AString "replace"] in
  let cmd := if negb (oldMpv c) then (cmd ++ [AInt 0])%list else cmd in
  let cmd := (cmd ++ [AMap [("force-media-title", AString title);
                            ("start", AString (FormatFloat_f6 start))]])%list in
  send env c cmd.

Definition addSubtitle (env : Env) (c : mpv) (url title lang : string) :=
  send env c [AString "sub-add"; AString url; AString "auto"; AString title;
              AString lang].

(** [(c *mpv) close]: the failures of its three steps are only logged. *)
Definition close (c : mpv) : M unit := emit Closed.

End Mpv.

(** ** play.go *)

Module Player.
Import GoLib Float64 GoTime Mpv.

Definition secondsToTicks (seconds : float64) : Z :=
  to_int64 (mul seconds (of_int 10000000)).

Definition ticksToSeconds (ticks : Z) : float64 :=
  div (of_int ticks) (of_int 10000000).

(** A [map[float64]float64] as the list of its entries.  Go leaves the
    order in which [range] visits a map open; the model visits the entries
    in the order of their first insertion. *)
Definition segmap : Type := list (float64 * float64).

(** The assignment [m[k] = v]: keys are compared with [==]. *)
Fixpoint map_set (m : segmap) (k v : float64) : segmap :=
  match m with
  | [] => [(k, v)]
  | (k', v') :: m' =>
      if eqb k' k then (k', v) :: m' else (k', v') :: map_set m' k v
  end.

(** isInsideSkippableSegment returns the end position of the segment that
    pos is inside of. Returns 0 if pos is not inside any segment. *)
Fixpoint isInsideSkippableSegment (segments : segmap) (pos : float64) : float64 :=
  match segments with
  | [] => zero
  | (start, end_) :: rest =>
      if leb start pos && ltb pos end_ then end_
      else isInsideSkippableSegment rest pos
  end.

Record Client := { Host : string }.

(** The remote calls of the client that [Play] uses, from the package
    [internal/jellyfin].  That package is not part of the sources
    ([jellyfin/client.go] is another package: it has no
    [ReportPlaybackStart] and its report methods return nothing), so each
    call is an answer of the environment: a success or an error. *)
Definition remote_report (env : Env) (kind : report_kind) (item : Item)
  (ticks : Z) : M (option error) :=
  fun w => let ok := report_result env (n_remote w) in
           (if ok then None else Some ErrRemote,
            {| n_rand := n_rand w; n_write := n_write w;
               n_clock := n_clock w; n_remote := S (n_remote w) |},
            [Reported kind item ticks ok]).

Definition ReportPlaybackStart env := remote_report env Start.
Definition ReportPlaybackProgress env := remote_report env Progress.
Definition ReportPlaybackStopped env := remote_report env Stopped.

Definition GetMediaSegments (env : Env) (item : Item) (types : list string)
  : M (list (Z * Z) * bool) :=
  fun w => (media_segments env (n_remote w) item,
            {| n_rand := n_rand w; n_write := n_write w;
               n_clock := n_clock w; n_remote := S (n_remote w) |},
            [FetchedSegments item]).

(** The index expression [l[i]]; [None] is the run-time panic. *)
Definition index_at {A} (l : list A) (i : Z) : option A :=
  if i <? 0 then None else nth_error l (Z.to_nat i).

Definition len {A} (l : list A) : Z := Z.of_nat (List.length l).

(** The values of [i] in [for i := lo; i < hi; i++]. *)
Definition range_up (lo hi : Z) : list Z :=
  map (fun k => lo + Z.of_nat k) (seq 0 (Z.to_nat (hi - lo))).

(** The values of [i] in [for i := hi; i >= 0; i--]. *)
Definition range_down (hi : Z) : list Z :=
  map (fun k => hi - Z.of_nat k) (seq 0 (Z.to_nat (hi + 1))).

Inductive outcome :=
| Return (err : option error)
| Panic (text : string).

(** The session state of the event loop: the locals [item], [pos],
    [lastProgressUpdate] and [skippableSegments] of [Play]. *)
Record session := {
  item : Item;
  pos : float64;
  lastProgressUpdate : Time;
  skippableSegments : segmap
}.

Inductive next :=
| Continue (st : session)
| Exit (r : outcome).

(** The loop that appends the files after the index. *)
Fixpoint append_files (env : Env) (c : mpv) (client : Client)
  (items : list Item) (idxs : list Z) (playlistIDs : list Z)
  : M (option (list Z)) :=
  match idxs with
  | [] => ret (Some playlistIDs)
  | i :: idxs' =>
      match index_at items i with
      | None => ret None
      | Some it =>
          let url := GetStreamingURL env (Host client) it in
          let title := GetMediaTitle env it in
          err <- appendFile env c url title ;;
          (match err with
           | Some _ => slog Error_ "failed to append file to playlist"
           | None => ret tt
           end) ;;;
          append_files env c client items idxs' (playlistIDs ++ [i])%list
      end
  end.

(** The loop that prepends the files before the index. *)
Fixpoint prepend_files (env : Env) (c : mpv) (client : Client)
  (items : list Item) (idxs : list Z) (playlistIDs : list Z)
  : M (option (list Z)) :=
  match idxs with
  | [] => ret (Some playlistIDs)
  | i :: idxs' =>
      match index_at items i with
      | None => ret None
      | Some it =>
          let url := GetStreamingURL env (Host client) it in
          let title := GetMediaTitle env it in
          err <- prependFile env c url title ;;
          (match err with
           | Some _ => slog Error_ "failed to prepend file to playlist"
           | None => ret tt
           end) ;;;
          prepend_files env c client items idxs' (playlistIDs ++ [i])%list
      end
  end.

(** Lines 44-74 of [Play]: the playlist is loaded into the player and the
    slice [playlistIDs] is built.  [inl] is an early end of [Play]. *)
Definition load_playlist (env : Env) (c : mpv) (client : Client)
  (items : list Item) (index : Z) : M (outcome + list Z) :=
  match index_at items index with
  | None => ret (inl (Panic "index out of range"))
  | Some it =>
      let url := GetStreamingURL env (Host client) it in
      let start := ticksToSeconds (GetResumePosition env it) in
      let title := GetMediaTitle env it in
      err <- playFile env c url title start ;;
      match err with
      | Some e => ret (inl (Return (Some (ErrPlayFile e))))
      | None =>
          let playlistIDs := [index] in
          r <- append_files env c client items
                 (range_up (index + 1) (len items)) playlistIDs ;;
          match r with
          | None => ret (inl (Panic "index out of range"))
          | Some playlistIDs =>
              r <- prepend_files env c client items
                     (range_down (index - 1)) playlistIDs ;;
              match r with
              | None => ret (inl (Panic "index out of range"))
              | Some playlistIDs => ret (inr playlistIDs)
              end
          end
      end
  end.

Definition set_pos (st : session) (p : float64) : session :=
  {| item := item st; pos := p;
     lastProgressUpdate := lastProgressUpdate st;
     skippableSegments := skippableSegments st |}.

Definition set_lastProgressUpdate (st : session) (t : Time) : session :=
  {| item := item st; pos := pos st;
     lastProgressUpdate := t;
     skippableSegments := skippableSegments st |}.

Definition set_item (st : session) (it : Item) : session :=
  {| item := it; pos := pos st;
     lastProgressUpdate := lastProgressUpdate st;
     skippableSegments := skippableSegments st |}.

Definition set_skippableSegments (st : session) (m : segmap) : session :=
  {| item := item st; pos := pos st;
     lastProgressUpdate := lastProgressUpdate st;
     skippableSegments := m |}.

(** Lines 107-113: the seek to the end of the segment that [pos] is in. *)
Definition skip_segment (env : Env) (c : mpv) (st : session) : M unit :=
  let end_ := isInsideSkippableSegment (skippableSegments st) (pos st) in
  if negb (eqb end_ zero) then
    err <- seekTo env c end_ ;;
    match err with
    | Some _ => slog Error_ "failed to seek to end of skippable segment"
    | None => slog Info "seeked to end of skippable segment"
    end
  else ret tt.

(** [case "time-pos"] of [case "property-change"]. *)
Definition on_time_pos (env : Env) (c : mpv) (st : session) (msg : message)
  : M next :=
  match Data msg with
  | ANil => ret (Continue st)
  | AFloat data =>
      let st := set_pos st data in
      skip_segment env c st ;;;
      now <- read_clock env ;;
      if Sub now (lastProgressUpdate st) >? 3 * Second then
        err <- ReportPlaybackProgress env (item st) (secondsToTicks (pos st)) ;;
        match err with
        | Some _ =>
            slog Error_ "failed to report playback progress" ;;;
            ret (Continue st)
        | None =>
            slog Info "reported progress" ;;;
            now <- read_clock env ;;
            ret (Continue (set_lastProgressUpdate st now))
        end
      else ret (Continue st)
  | _ =>
      slog Error_ "failed to parse time-pos data as float64" ;;;
      ret (Continue st)
  end.

(** The loop [for start, end := range segments] of [case "start-file"]. *)
Fixpoint add_segments (segments : list (Z * Z)) (m : segmap) : M segmap :=
  match segments with
  | [] => ret m
  | (start, end_) :: rest =>
      let startSeconds := ticksToSeconds start in
      let endSeconds := ticksToSeconds end_ in
      slog Info "added skippable segment" ;;;
      add_segments rest (map_set m startSeconds endSeconds)
  end.

(** The loop [for _, subtitle := range subtitles]; a subtitle is its
    [Path], [Title] and [Language]. *)
Fixpoint add_subtitles (env : Env) (c : mpv) (client : Client)
  (subtitles : list (string * string * string)) : M unit :=
  match subtitles with
  | [] => ret tt
  | (path, title, language) :: rest =>
      let subtitleURL := Host client ++ path in
      err <- addSubtitle env c subtitleURL title language ;;
      (match err with
       | Some _ => slog Error_ "failed to add subtitle"
       | None => slog Info "added subtitle"
       end) ;;;
      add_subtitles env c client rest
  end.

(** [case "start-file"]. *)
Definition on_start_file (env : Env) (c : mpv) (client : Client)
  (items : list Item) (playlistIDs : list Z) (st : session) (msg : message)
  : M next :=
  let id := wrap_int (PlaylistID msg - 1) in
  if id >=? len playlistIDs then
    slog Error_ "start-file event for unknown playlist id" ;;;
    ret (Exit (Return (Some (ErrUnknownPlaylistID (PlaylistID msg)))))
  else
    match index_at playlistIDs (wrap_int (PlaylistID msg - 1)) with
    | None => ret (Exit (Panic "index out of range"))
    | Some idx =>
        match index_at items idx with
        | None => ret (Exit (Panic "index out of range"))
        | Some it =>
            let st := set_item st it in
            slog Info "received" ;;;
            err <- ReportPlaybackStart env (item st) (secondsToTicks (pos st)) ;;
            (match err with
             | Some _ => slog Error_ "failed to report playback progress"
             | None => slog Info "reported playback start"
             end) ;;;
            slog Debug "requesting skippable segments" ;;;
            r <- GetMediaSegments env (item st) (skip_segments env) ;;
            let '(segments, err) := r in
            (if err then slog Error_ "failed to get skippable segments"
             else ret tt) ;;;
            (if len segments =? 0 then slog Info "no skippable segments found"
             else ret tt) ;;;
            m <- add_segments segments (skippableSegments st) ;;
            let st := set_skippableSegments st m in
            add_subtitles env c client
              (GetExternalSubtitleStreams env (item st)) ;;;
            ret (Continue st)
        end
    end.

(** The body of the [switch msg.Event]. *)
Definition dispatch (env : Env) (c : mpv) (client : Client)
  (items : list Item) (playlistIDs : list Z) (st : session) (msg : message)
  : M next :=
  if String.eqb (Event msg) "property-change" then
    if String.eqb (Name msg) "time-pos" then on_time_pos env c st msg
    else ret (Continue st)
  else if String.eqb (Event msg) "start-file" then
    on_start_file env c client items playlistIDs st msg
  else if String.eqb (Event msg) "seek" then
    slog Info "received" ;;;
    ret (Continue (set_lastProgressUpdate st zeroTime))
  else if String.eqb (Event msg) "end-file"
          || String.eqb (Event msg) "shutdown" then
    slog Info "received" ;;;
    err <- ReportPlaybackStopped env (item st) (secondsToTicks (pos st)) ;;
    (match err with
     | Some _ => slog Error_ "failed to report playback stopped"
     | None => slog Info "reported playback stopped"
     end) ;;;
    ret (Continue st)
  else
    slog Debug "ignored" ;;;
    ret (Continue st).

(** One turn of [for mpv.scanner.Scan()]. *)
Definition handle_line (env : Env) (c : mpv) (client : Client)
  (items : list Item) (playlistIDs : list Z) (st : session) (l : line)
  : M next :=
  match l with
  | EmptyLine => ret (Continue st)
  | BadLine _ =>
      slog Error_ "failed to unmarshal mpv msg" ;;;
      ret (Continue st)
  | MsgLine msg => dispatch env c client items playlistIDs st msg
  end.

(** The event loop with what follows it: it runs until the scanner has no
    more lines, or until a turn ends [Play]. *)
Fixpoint event_loop (env : Env) (c : mpv) (client : Client)
  (items : list Item) (playlistIDs : list Z) (lines : list line)
  (st : session) : M outcome :=
  match lines with
  | [] =>
      if scannerErr c then ret (Return (Some ErrRead))
      else ret (Return None)
  | l :: rest =>
      n <- handle_line env c client items playlistIDs st l ;;
      match n with
      | Continue st' => event_loop env c client items playlistIDs rest st'
      | Exit r => ret r
      end
  end.

(** [Play], from the result of [createMpv] on.  The deferred [mpv.close()]
    runs on every way out. *)
Definition Play (env : Env) (created : option mpv) (client : Client)
  (items : list Item) (index : Z) : M outcome :=
  match created with
  | None => ret (Return (Some ErrCreate))
  | Some c =>
      r <- (err <- observeProperty env c "time-pos" ;;
            match err with
            | Some e => ret (Return (Some (ErrObserve e)))
            | None =>
                r <- load_playlist env c client items index ;;
                match r with
                | inl out => ret out
                | inr playlistIDs =>
                    now <- read_clock env ;;
                    match index_at items index with
                    | None => ret (Panic "index out of range")
                    | Some it =>
                        let st := {| item := it; pos := of_int 0;
                                     lastProgressUpdate := now;
                                     skippableSegments := [] |} in
                        event_loop env c client items playlistIDs
                          (scanner c) st
                    end
                end
            end) ;;
      close c ;;;
      ret r
  end.

End Player.

(** ** jellyfin/client.go *)

(** The report methods of the package [jellyfin].  They take the position
    in whole seconds and convert it themselves; a failed call of the API
    panics.  [Play] does not call them: it uses [internal/jellyfin]. *)
Module JellyfinClient.
Import GoLib GoTime Mpv Player.

Record Client := {
  UserId : string;
  Token : string;
  lastProgressReport : Time   (* used for debouncing progress updates *)
}.

Definition ReportPlaybackStopped (env : Env) (c : Client) (item : Item)
  (pos : Z) : M outcome :=
  let posTicks := wrap_int (pos * 10000000) in
  err <- remote_report env Stopped item posTicks ;;
  match err with
  | Some _ => ret (Panic "err")
  | None => ret (Return None)
  end.

Definition ReportPlaybackProgress (env : Env) (c : Client) (item : Item)
  (pos : Z) : M outcome :=
  now <- read_clock env ;;
  if Sub now (lastProgressReport c) <? Second * 3 then ret (Return None)
  else
    let posTicks := wrap_int (pos * 10000000) in
    err <- remote_report env Progress item posTicks ;;
    match err with
    | Some _ => ret (Panic "err")
    | None => ret (Return None)
    end.

End JellyfinClient.

(** ** mpv.go: the teardown in detail *)

(** [(c *mpv) close] step by step.  [Mpv.close] records the teardown as the
    single effect [Closed]; here are its three steps, with the handles that
    may be nil and the failures that each step may meet. *)
Module Transport.

Record handles := {
  has_conn : bool;      (* c.conn != nil *)
  has_cmd : bool;       (* c.cmd != nil *)
  has_process : bool;   (* c.cmd.Process != nil *)
  socket : string
}.

(** Whether each call succeeds when it is made. *)
Record answers := {
  conn_Close : bool;
  process_Signal : bool;
  cmd_Wait : bool;
  os_Remove : bool
}.

Inductive step :=
| CloseConn (ok : bool)
| Interrupt (ok : bool)
| WaitExit (ok : bool)
| RemoveSocket (path : string) (ok : bool)
| LogError (text : string).

Definition logged_unless (ok : bool) (text : string) : list step :=
  if ok then [] else [LogError text].

Definition close (c : handles) (a : answers) : list step :=
  ((if has_conn c then
      CloseConn (conn_Close a)
      :: logged_unless (conn_Close a) "failed to close mpv socket connection"
    else [])
   ++ (if has_cmd c && has_process c then
         (Interrupt (process_Signal a)
          :: logged_unless (process_Signal a) "failed to interrupt mpv process")
         ++ WaitExit (cmd_Wait a)
            :: logged_unless (cmd_Wait a) "failed to wait for mpv process"
       else [])
   ++ RemoveSocket (socket c) (os_Remove a)
      :: logged_unless (os_Remove a) "failed to remove mpv socket")%list.

Definition is_log (s : step) : bool :=
  match s with LogError _ => true | _ => false end.

(** The calls made, without the log lines. *)
Definition calls (steps : list step) : list step :=
  filter (fun s => negb (is_log s)) steps.

Definition failed (s : step) : bool :=
  match s with
  | CloseConn ok | Interrupt ok | WaitExit ok | RemoveSocket _ ok => negb ok
  | LogError _ => false
  end.

End Transport.

(** ** Notions used to state the properties *)

Module Props.
Import GoLib Float64 GoTime Mpv Player.

(** *** The version gate, as the design describes it *)

(** The first line of the banner, its second whitespace-separated field,
    a leading [v] and a trailing [-suffix] removed, split on dots. *)
Definition version_parts (output : string) : option (list string) :=
  if IndexByte output nl =? -1 then None
  else
    match Fields (slice_to output (IndexByte output nl)) with
    | _ :: field :: _ =>
        Some (Split1 (nth 0 (Split1 (TrimPrefix1 field "v") "-") "") ".")
    | _ => None
    end.

(** The parse succeeds when there are exactly three parts and each is an
    integer. *)
Definition parse_version (output : string) : option (Z * Z * Z) :=
  match version_parts output with
  | Some [p0; p1; p2] =>
      match Atoi p0, Atoi p1, Atoi p2 with
      | Some a, Some b, Some c => Some (a, b, c)
      | _, _, _ => None
      end
  | _ => None
  end.

Definition lex_ltb (v w : Z * Z * Z) : bool :=
  let '(a, b, c) := v in
  let '(x, y, z) := w in
  (a <? x) || ((a =? x) && ((b <? y) || ((b =? y) && (c <? z)))).

(** Old means: the parse succeeds and the triple is below (0, 38, 0);
    every failure of the parse means not old. *)
Definition old_by_design (output : string) : bool :=
  match parse_version output with
  | Some v => lex_ltb v (0, 38, 0)
  | None => false
  end.

(** A banner whose first line carries the version [v] in second place. *)
Definition banner (v : string) : string :=
  "mpv " ++ v ++ " Copyright (C) 2000-2024 mpv/MPlayer/mplayer2 projects"
  ++ String nl " built on Jan  1 2024 00:00:00".

(** The components of [parts] that [isOldMpv] converts before it answers
    old: conversion stops at the first component that differs from the
    target (0, 38, 0). *)
Definition decided_old (parts : list string) : Prop :=
  exists p0 p1 p2 a,
    parts = [p0; p1; p2] /\ Atoi p0 = Some a /\
    (a < 0 \/
     (a = 0 /\ exists b, Atoi p1 = Some b /\
        (b < 38 \/ (b = 38 /\ exists c, Atoi p2 = Some c /\ c < 0)))).

(** *** Reading a trace *)

(** The requests written on the socket, oldest first. *)
Definition written (tr : list effect) : list json :=
  flat_map (fun e => match e with Wrote d _ => [d] | _ => [] end) tr.

(** The reports made to the remote service, oldest first. *)
Definition reports_of (tr : list effect)
  : list (report_kind * Item * Z * bool) :=
  flat_map (fun e => match e with
                     | Reported k it t ok => [(k, it, t, ok)]
                     | _ => []
                     end) tr.

Fixpoint lookup (k : string) (fs : list (string * json)) : option json :=
  match fs with
  | [] => None
  | (k', v) :: fs' => if String.eqb k' k then Some v else lookup k fs'
  end.

(** The member [k] of a JSON object. *)
Definition field (k : string) (j : json) : option json :=
  match j with
  | JObject fs => lookup k fs
  | _ => None
  end.

Definition has_command (j : json) : bool :=
  match field "command" j with
  | Some _ => true
  | None => false
  end.

Definition has_request_id (j : json) : bool :=
  match field "request_id" j with
  | Some (JInt _) => true
  | _ => false
  end.

(** C9 as it is stated. *)
Definition every_request_has_id : Prop :=
  forall env c command w,
    Forall (fun d => has_command d = true /\ has_request_id d = true)
      (written (snd (send env c command w))).

(** *** Sample data *)

(** An outside where every call succeeds; the k-th random draw is k + 7
    and the k-th clock reading is k seconds. *)
Definition env_ok : Env :=
  {| rand_Intn := fun k => Z.of_nat k + 7;
     conn_Write := fun _ => true;
     time_Now := fun k => Z.of_nat k * Second;
     report_result := fun _ => true;
     media_segments := fun _ _ => ([], false);
     skip_segments := ["Intro"];
     GetStreamingURL := fun host it => host ++ "/Videos/" ++ ItemId it;
     GetResumePosition := fun _ => 0;
     GetMediaTitle := ItemName;
     GetExternalSubtitleStreams := fun _ => [] |}.

(** The same outside with every random draw equal to [r]. *)
Definition env_draw (r : Z) : Env :=
  {| rand_Intn := fun _ => r;
     conn_Write := conn_Write env_ok;
     time_Now := time_Now env_ok;
     report_result := report_result env_ok;
     media_segments := media_segments env_ok;
     skip_segments := skip_segments env_ok;
     GetStreamingURL := GetStreamingURL env_ok;
     GetResumePosition := GetResumePosition env_ok;
     GetMediaTitle := GetMediaTitle env_ok;
     GetExternalSubtitleStreams := GetExternalSubtitleStreams env_ok |}.

Definition player (old : bool) (lines : list line) : mpv :=
  {| oldMpv := old; scanner := lines; scannerErr := false |}.

Definition the_client : Client := {| Host := "http://jf" |}.

Definition itemA : Item := {| ItemId := "a"; ItemName := "A" |}.
Definition itemB : Item := {| ItemId := "b"; ItemName := "B" |}.
Definition itemC : Item := {| ItemId := "c"; ItemName := "C" |}.
Definition itemD : Item := {| ItemId := "d"; ItemName := "D" |}.

(** *** The playlist index map *)

Inductive load_kind := Replace | Append | InsertFront.

Definition kind_of_mode (mode : string) : option load_kind :=
  if String.eqb mode "replace" then Some Replace
  else if String.eqb mode "append" then Some Append
  else if String.eqb mode "insert-at" then Some InsertFront
  else None.

(** Reads a written request as a load command: its kind, url and title.
    Both wire formats are read, with and without the index argument. *)
Definition load_of (data : json) : option (load_kind * string * string) :=
  match field "command" data with
  | Some (JArray (JString name :: JString url :: JString mode :: rest)) =>
      if String.eqb name "loadfile" then
        match kind_of_mode mode,
              match rest with
              | [JInt _; opts] => Some opts
              | [opts] => Some opts
              | _ => None
              end with
        | Some k, Some opts =>
            match field "force-media-title" opts with
            | Some (JString title) => Some (k, url, title)
            | _ => None
            end
        | _, _ => None
        end
      else None
  | _ => None
  end.

(** The load commands among the written requests. *)
Definition loads_written (tr : list effect)
  : list (load_kind * string * string) :=
  flat_map (fun d => match load_of d with Some l => [l] | None => [] end)
    (written tr).

(** The order of loading that the design describes for [n] items and the
    start index [s]: replace [s], append [s+1 .. n-1] ascending, insert at
    the front [s-1 .. 0] descending. *)
Definition load_plan (n s : Z) : list (load_kind * Z) :=
  ((Replace, s) :: map (pair Append) (range_up (s + 1) n)
   ++ map (pair InsertFront) (range_down (s - 1)))%list.

(** The load command for the item at an index. *)
Definition load_for (env : Env) (client : Client) (items : list Item)
  (p : load_kind * Z) : list (load_kind * string * string) :=
  match index_at items (snd p) with
  | Some it => [(fst p, GetStreamingURL env (Host client) it,
                 GetMediaTitle env it)]
  | None => []
  end.

(** C1 as it is stated: whenever the playlist has been built, the load
    commands written are those of the plan, in its order, and slot k is
    mapped to the index loaded by the k-th command. *)
Definition loads_follow_plan : Prop :=
  forall env c client items s w ids w' tr,
    load_playlist env c client items s w = (inr ids, w', tr) ->
    loads_written tr
    = flat_map (load_for env client items) (load_plan (len items) s) /\
    ids = map snd (load_plan (len items) s).

(** C7 as it is stated, at the end of the construction. *)
Definition slots_count_loads : Prop :=
  forall env c client items s w ids w' tr,
    load_playlist env c client items s w = (inr ids, w', tr) ->
    len ids = len (loads_written tr).

(** *** The event loop *)

(** A message of the given kind with the other members absent. *)
Definition event (kind : string) : message :=
  {| Error := ""; msgID := 0; Event := kind; Name := ""; Reason := "";
     Data := ANil; PlaylistID := 0 |}.

Definition start_file (k : Z) : message :=
  {| Error := ""; msgID := 0; Event := "start-file"; Name := "";
     Reason := ""; Data := ANil; PlaylistID := k |}.

Definition time_pos (data : any) : message :=
  {| Error := ""; msgID := 0; Event := "property-change"; Name := "time-pos";
     Reason := ""; Data := data; PlaylistID := 0 |}.

(** The position a line carries: the data of a time-pos property change
    when it is a number. *)
Definition time_pos_of (l : line) : option float64 :=
  match l with
  | MsgLine msg =>
      if String.eqb (Event msg) "property-change"
         && String.eqb (Name msg) "time-pos"
      then match Data msg with
           | AFloat data => Some data
           | _ => None
           end
      else None
  | _ => None
  end.


(** The turns of the event loop over [lines], up to the session state they
    leave; the loop itself goes on from there. *)
Fixpoint run_lines (env : Env) (c : mpv) (client : Client)
  (items : list Item) (playlistIDs : list Z) (lines : list line)
  (st : session) : M next :=
  match lines with
  | [] => ret (Continue st)
  | l :: rest =>
      n <- handle_line env c client items playlistIDs st l ;;
      match n with
      | Continue st' => run_lines env c client items playlistIDs rest st'
      | Exit r => ret (Exit r)
      end
  end.

(** The session with which [Play] enters the event loop. *)
Definition session0 (it : Item) (now : Time) : session :=
  {| item := it; pos := of_int 0; lastProgressUpdate := now;
     skippableSegments := [] |}.

(** The entries that fetched segments make in a segment map: the loop of
    [add_segments] without its log lines. *)
Definition install (segments : list (Z * Z)) (m : segmap) : segmap :=
  fold_left (fun m se => map_set m (ticksToSeconds (fst se))
                           (ticksToSeconds (snd se))) segments m.

(** The position after a turn of the loop. *)
Definition pos_after (n : next) (st : session) : float64 :=
  match n with
  | Continue st' => pos st'
  | Exit _ => pos st
  end.

(** The time since the debounce timestamp, at the k-th reading of the
    clock. *)
Definition elapsed (env : Env) (st : session) (k : nat) : Z :=
  Sub (time_Now env k) (lastProgressUpdate st).

(** C2 as it is stated: a start-file event for a slot that the map does
    not hold ends [Play] with an error. *)
Definition unknown_slot_is_an_error : Prop :=
  forall env c client items ids st msg w,
    index_at ids (PlaylistID msg - 1) = None ->
    exists e, fst (fst (on_start_file env c client items ids st msg w))
              = Exit (Return (Some e)).

(** C3 as it is stated: after a start-file event the segment set holds
    the segments fetched for the new item and no others. *)
Definition segments_are_replaced : Prop :=
  forall env c client items ids st msg w st' w' tr,
    on_start_file env c client items ids st msg w = (Continue st', w', tr) ->
    skippableSegments st'
    = install (fst (media_segments env (S (n_remote w)) (item st'))) [].

(** C5 as it is stated: a numeric time-pos event makes a progress report
    exactly when at least 3 seconds have elapsed. *)
Definition reports_from_three_seconds : Prop :=
  forall env c st msg data w,
    Data msg = AFloat data ->
    (reports_of (snd (on_time_pos env c st msg w)) <> []
     <-> 3 * Second <= elapsed env st (n_clock w)).

(** C6 as it is stated: nothing that follows a shutdown message is
    processed. *)
Definition shutdown_ends_the_loop : Prop :=
  forall env c client items ids st msg rest w,
    Event msg = "shutdown" ->
    event_loop env c client items ids (MsgLine msg :: rest) st w
    = event_loop env c client items ids [MsgLine msg] st w.

(** An outside like [env_ok] where item A has the segment 10 s to 20 s and
    every other item the segment 30 s to 40 s, in ticks. *)
Definition env_segments : Env :=
  {| rand_Intn := rand_Intn env_ok;
     conn_Write := conn_Write env_ok;
     time_Now := time_Now env_ok;
     report_result := report_result env_ok;
     media_segments := fun _ it =>
       if String.eqb (ItemId it) "a"
       then ([(100000000, 200000000)], false)
       else ([(300000000, 400000000)], false);
     skip_segments := skip_segments env_ok;
     GetStreamingURL := GetStreamingURL env_ok;
     GetResumePosition := GetResumePosition env_ok;
     GetMediaTitle := GetMediaTitle env_ok;
     GetExternalSubtitleStreams := GetExternalSubtitleStreams env_ok |}.

(** An outside like [env_ok] where every report to the remote service
    fails and every item resumes at 500 s. *)
Definition env_failing_reports : Env :=
  {| rand_Intn := rand_Intn env_ok;
     conn_Write := conn_Write env_ok;
     time_Now := time_Now env_ok;
     report_result := fun _ => false;
     media_segments := media_segments env_ok;
     skip_segments := skip_segments env_ok;
     GetStreamingURL := GetStreamingURL env_ok;
     GetResumePosition := fun _ => 5000000000;
     GetMediaTitle := GetMediaTitle env_ok;
     GetExternalSubtitleStreams := GetExternalSubtitleStreams env_ok |}.

(** A float64 written as a quotient of integers. *)
Definition ratio (n d : Z) : float64 := div (of_int n) (of_int d).

(** A computation is quiet when it makes no report and leaves the clock
    and the remote-call counters alone. *)
Definition quiet {A} (m : M A) : Prop :=
  forall w, reports_of (snd (m w)) = []
            /\ n_clock (snd (fst (m w))) = n_clock w
            /\ n_remote (snd (fst (m w))) = n_remote w.

(** The counters after [k] readings of the clock and nothing else. *)
Definition world_at (k : nat) : World :=
  {| n_rand := 0; n_write := 0; n_clock := k; n_remote := 0 |}.

(** Whether [f] holds on the [p] integers from [lo] on. *)
Fixpoint holds_on (f : Z -> bool) (p : positive) (lo : Z) : bool :=
  match p with
  | xH => f lo
  | xO p' => holds_on f p' lo && holds_on f p' (lo + Zpos p')
  | xI p' => f lo && holds_on f p' (lo + 1) && holds_on f p' (lo + 1 + Zpos p')
  end.

(** The position, in ticks, that a report carries. *)
Definition ticks_of (r : report_kind * Item * Z * bool) : Z := snd (fst r).

(** *** Further notions *)

(** The [command] members of the requests written, oldest first. *)
Definition commands_of (tr : list effect) : list (option json) :=
  map (field "command") (written tr).

(** The items whose segments were fetched, oldest first. *)
Definition fetches_of (tr : list effect) : list Item :=
  flat_map (fun e => match e with FetchedSegments it => [it] | _ => [] end) tr.

Definition is_logged (e : effect) : Prop :=
  match e with Logged _ _ => True | _ => False end.

Definition not_closed (e : effect) : Prop :=
  match e with Closed => False | _ => True end.

(** Every effect of a computation satisfies [P]. *)
Definition only (P : effect -> Prop) {A} (m : M A) : Prop :=
  forall w, Forall P (snd (m w)).

(** Whether a segment contains a position: [pos >= start && pos < end]. *)
Definition contains (pos : float64) (se : float64 * float64) : bool :=
  leb (fst se) pos && ltb pos (snd se).

(** The lines that the event loop passes over: empty and malformed ones,
    property changes other than a numeric time-pos, and events of a kind
    the [switch] does not list. *)
Definition passed_over (l : line) : bool :=
  match l with
  | EmptyLine | BadLine _ => true
  | MsgLine msg =>
      if String.eqb (Event msg) "property-change" then
        negb (String.eqb (Name msg) "time-pos")
        || match Data msg with AFloat _ => false | _ => true end
      else
        negb (String.eqb (Event msg) "start-file"
              || String.eqb (Event msg) "seek"
              || String.eqb (Event msg) "end-file"
              || String.eqb (Event msg) "shutdown")
  end.

(** Whether a line is not a start-file event, or is one for a slot that a
    slot map of [n] entries holds. *)
Definition slot_known (n : Z) (l : line) : bool :=
  match l with
  | MsgLine msg =>
      if String.eqb (Event msg) "start-file"
      then (1 <=? PlaylistID msg) && (PlaylistID msg <=? n)
           && (PlaylistID msg <=? maxInt64)
      else true
  | _ => true
  end.

(** The item index that slot [k] stands for, with [n] items and the start
    index [s]. *)
Definition slot_index (n s k : Z) : Z :=
  if k <=? n - s then s + k - 1 else n - k.

(** The sub-add command for a subtitle (its path, title and language). *)
Definition sub_add (client : Client) (sub : string * string * string)
  : option json :=
  let '(path, title, language) := sub in
  Some (JArray [JString "sub-add"; JString (Host client ++ path);
                JString "auto"; JString title; JString language]).

Definition not_wrote (e : effect) : Prop :=
  match e with Wrote _ _ => False | _ => True end.

Definition not_reported (e : effect) : Prop :=
  match e with Reported _ _ _ _ => False | _ => True end.

Definition not_fetched (e : effect) : Prop :=
  match e with FetchedSegments _ => False | _ => True end.

(** An outside like [env_ok] where the k-th write on the socket succeeds
    when [ok k] holds. *)
Definition env_writes (ok : nat -> bool) : Env :=
  {| rand_Intn := rand_Intn env_ok;
     conn_Write := ok;
     time_Now := time_Now env_ok;
     report_result := report_result env_ok;
     media_segments := media_segments env_ok;
     skip_segments := skip_segments env_ok;
     GetStreamingURL := GetStreamingURL env_ok;
     GetResumePosition := GetResumePosition env_ok;
     GetMediaTitle := GetMediaTitle env_ok;
     GetExternalSubtitleStreams := GetExternalSubtitleStreams env_ok |}.

(** Whether a line is an event of the given kind. *)
Definition event_is (kind : string) (l : line) : bool :=
  match l with
  | MsgLine msg => String.eqb (Event msg) kind
  | _ => false
  end.

(** The item that a report names. *)
Definition item_of (r : report_kind * Item * Z * bool) : Item :=
  snd (fst (fst r)).

(** *** The exact value of a float64 *)

(** A finite float64 is the rational [value_num x / value_den x], with a
    denominator that is a power of two. *)
Definition value_num (x : float64) : Z :=
  match x with
  | S754_finite s m e => (if s then -1 else 1) * Zpos m * 2 ^ Z.max e 0
  | _ => 0
  end.

Definition value_den (x : float64) : Z :=
  match x with
  | S754_finite _ _ e => 2 ^ Z.max (- e) 0
  | _ => 1
  end.

(** [t] is [x] times 10,000,000, as numbers. *)
Definition scaled_exactly (x : float64) (t : Z) : Prop :=
  is_finite x = true /\ value_num x * 10000000 = t * value_den x.

(** C8 as it is stated: every report carries the current position in
    seconds times 10,000,000. *)
Definition reports_carry_scaled_seconds : Prop :=
  forall env c client items ids st l w,
    Forall (fun r =>
              scaled_exactly
                (pos_after
                   (fst (fst (handle_line env c client items ids st l w))) st)
                (ticks_of r))
      (reports_of (snd (handle_line env c client items ids st l w))).

End Props.

(** * Properties *)

Import GoLib Float64 GoTime Mpv Player Props.

(** ** The version gate *)

Lemma isOldMpv_version_parts (output : string) :
  isOldMpv (ExecOk output) =
  match version_parts output with
  | Some [p0; p1; p2] => compare_parts [p0; p1; p2] [0; 38; 0]
  | _ => false
  end.
Proof.
  unfold isOldMpv, version_parts.
  destruct (IndexByte output nl =? -1); [reflexivity|].
  destruct (Fields (slice_to output (IndexByte output nl))) as [|f0 [|f1 fs]];
    try reflexivity.
  cbn [List.length nth].
  replace (Z.of_nat (S (S (List.length fs))) <? 2) with false
    by (symmetry; apply Z.ltb_ge; lia).
  destruct (Split1 (nth 0 (Split1 (TrimPrefix1 f1 "v") "-") "") ".")
    as [|p0 [|p1 [|p2 [|p3 ps]]]]; try reflexivity.
  cbn [List.length].
  replace (Z.of_nat (S (S (S (S (List.length ps))))) =? 3) with false
    by (symmetry; apply Z.eqb_neq; lia).
  reflexivity.
Qed.

Lemma compare_parts_parsed (p0 p1 p2 : string) (a b c : Z) :
  Atoi p0 = Some a -> Atoi p1 = Some b -> Atoi p2 = Some c ->
  compare_parts [p0; p1; p2] [0; 38; 0] = lex_ltb (a, b, c) (0, 38, 0).
Proof.
  intros H0 H1 H2. cbn [compare_parts lex_ltb]. rewrite H0, H1, H2.
  destruct (a <? 0) eqn:A1; [reflexivity|].
  destruct (a >? 0) eqn:A2.
  { replace (a =? 0) with false by (symmetry; apply Z.eqb_neq; lia).
    reflexivity. }
  replace (a =? 0) with true by (symmetry; apply Z.eqb_eq; lia).
  destruct (b <? 38) eqn:B1; [reflexivity|].
  destruct (b >? 38) eqn:B2.
  { replace (b =? 38) with false by (symmetry; apply Z.eqb_neq; lia).
    reflexivity. }
  replace (b =? 38) with true by (symmetry; apply Z.eqb_eq; lia).
  destruct (c <? 0) eqn:C1; [reflexivity|].
  destruct (c >? 0); reflexivity.
Qed.

Lemma compare_parts_decided (parts : list string) :
  match parts with
  | [p0; p1; p2] => compare_parts [p0; p1; p2] [0; 38; 0]
  | _ => false
  end = true <-> decided_old parts.
Proof.
  unfold decided_old. split.
  - destruct parts as [|p0 [|p1 [|p2 [|p3 ps]]]]; try discriminate.
    cbn [compare_parts]. intros H.
    destruct (Atoi p0) as [a|] eqn:H0; [|discriminate].
    exists p0, p1, p2, a. split; [reflexivity|]. split; [exact H0|].
    destruct (a <? 0) eqn:A1; [left; lia|]. right.
    destruct (a >? 0) eqn:A2; [discriminate|].
    split; [lia|].
    destruct (Atoi p1) as [b|] eqn:H1; [|discriminate].
    exists b. split; [reflexivity|].
    destruct (b <? 38) eqn:B1; [left; lia|]. right.
    destruct (b >? 38) eqn:B2; [discriminate|].
    split; [lia|].
    destruct (Atoi p2) as [c|] eqn:H2; [|discriminate].
    exists c. split; [reflexivity|].
    destruct (c <? 0) eqn:C1; [lia|].
    destruct (c >? 0); discriminate.
  - intros (p0 & p1 & p2 & a & -> & H0 & H).
    cbn [compare_parts]. rewrite H0.
    destruct H as [H|(-> & b & H1 & H)].
    { replace (a <? 0) with true by (symmetry; apply Z.ltb_lt; lia).
      reflexivity. }
    cbn. rewrite H1.
    destruct H as [H|(-> & c & H2 & H)].
    { replace (b <? 38) with true by (symmetry; apply Z.ltb_lt; lia).
      reflexivity. }
    cbn. rewrite H2.
    replace (c <? 0) with true by (symmetry; apply Z.ltb_lt; lia).
    reflexivity.
Qed.

(** C4, as stated, fails: the banner of a version "0.37.x" does not parse
    into three integers, yet [isOldMpv] answers old, because the second
    component has already decided when the third would be converted. *)
Lemma isOldMpv_unparsed_yet_old :
  parse_version (banner "0.37.x") = None /\
  old_by_design (banner "0.37.x") = false /\
  isOldMpv (ExecOk (banner "0.37.x")) = true /\
  ~ (forall output, isOldMpv (ExecOk output) = old_by_design output).
Proof.
  split; [vm_compute; reflexivity|].
  split; [vm_compute; reflexivity|].
  split; [vm_compute; reflexivity|].
  intros H. specialize (H (banner "0.37.x")). vm_compute in H. discriminate.
Qed.

(** C4, amended: [isOldMpv] takes the first line of the banner, its second
    field, strips a leading v and a trailing -suffix and splits on dots into
    exactly three parts; the parts are converted one at a time and compared
    with (0, 38, 0), the first differing component deciding.  On every
    banner that parses into three integers the answer is the lexicographic
    comparison; "0.37.0" is old, "0.38.0" and "0.39.2-dirty" are not; the
    answer is old exactly when the converted components decide so, hence a
    failure met before the decision (no newline, fewer than two fields, not
    three parts, a non-integer component reached, as in "0.x.0") means not
    old, while a component after the deciding one is not converted ("0.37.x"
    is old); a failed version command means not old. *)
Theorem isOldMpv_lazy_lexicographic (output : string) :
  (forall v, parse_version output = Some v ->
             isOldMpv (ExecOk output) = lex_ltb v (0, 38, 0)) /\
  (isOldMpv (ExecOk output) = true <->
   exists parts, version_parts output = Some parts /\ decided_old parts) /\
  isOldMpv (ExecErr output) = false /\
  isOldMpv (ExecOk (banner "0.37.0")) = true /\
  isOldMpv (ExecOk (banner "0.38.0")) = false /\
  isOldMpv (ExecOk (banner "0.39.2-dirty")) = false /\
  isOldMpv (ExecOk (banner "0.37.x")) = true /\
  isOldMpv (ExecOk (banner "0.x.0")) = false.
Proof.
  split; [|split; [|split; [reflexivity|repeat split; vm_compute; reflexivity]]].
  - intros [[a b] c] H. rewrite isOldMpv_version_parts.
    unfold parse_version in H.
    destruct (version_parts output) as [[|p0 [|p1 [|p2 [|p3 ps]]]]|];
      try discriminate.
    destruct (Atoi p0) as [a'|] eqn:H0; [|discriminate].
    destruct (Atoi p1) as [b'|] eqn:H1; [|discriminate].
    destruct (Atoi p2) as [c'|] eqn:H2; [|discriminate].
    injection H as -> -> ->.
    now apply compare_parts_parsed.
  - rewrite isOldMpv_version_parts.
    destruct (version_parts output) as [parts|].
    + rewrite compare_parts_decided. split.
      * intros H. now exists parts.
      * intros (parts' & E & H). now injection E as ->.
    + split; [discriminate|]. intros (parts' & E & _). discriminate.
Qed.

Lemma isOldMpv_lazy_lexicographic_witness :
  parse_version (banner "0.37.0") = Some (0, 37, 0) /\
  isOldMpv (ExecOk (banner "0.37.0")) = lex_ltb (0, 37, 0) (0, 38, 0).
Proof.
  split; [vm_compute; reflexivity|].
  apply (proj1 (isOldMpv_lazy_lexicographic (banner "0.37.0")) (0, 37, 0)).
  vm_compute; reflexivity.
Defined.

(** ** The command encoder *)

Lemma written_app (t1 t2 : list effect) :
  written (t1 ++ t2) = (written t1 ++ written t2)%list.
Proof. apply flat_map_app. Qed.

Lemma reports_of_app (t1 t2 : list effect) :
  reports_of (t1 ++ t2) = (reports_of t1 ++ reports_of t2)%list.
Proof. apply flat_map_app. Qed.

(** What [send] does, case by case: a command that cannot be marshalled
    is not written; otherwise one request is written, with the member
    [request_id] unless the draw is 0. *)
Lemma send_unfold (env : Env) (c : mpv) (command : list any) (w : World) :
  let id := rand_Intn env (n_rand w) mod 1000 in
  let w1 := {| n_rand := S (n_rand w); n_write := n_write w;
               n_clock := n_clock w; n_remote := n_remote w |} in
  let w2 := {| n_rand := S (n_rand w); n_write := S (n_write w);
               n_clock := n_clock w; n_remote := n_remote w |} in
  send env c command w =
  match marshal_any (AList command) with
  | None => (Some ErrMarshal, w1, [])
  | Some cmd =>
      let data := JObject (("command", cmd)
                    :: (if id =? 0 then [] else [("request_id", JInt id)])) in
      if conn_Write env (n_write w)
      then (None, w2, [Wrote data true; Logged Debug "sent"])
      else (Some ErrWrite, w2, [Wrote data false])
  end.
Proof.
  cbv zeta. unfold send, bind, draw_rand, marshal_request.
  cbn [Command ID].
  destruct (marshal_any (AList command)) as [cmd|]; [|reflexivity].
  unfold write_conn, slog, emit, ret. cbn [n_write n_rand n_clock n_remote].
  destruct (conn_Write env (n_write w)); reflexivity.
Qed.

(** C9, as stated, fails: when [rand.Intn(1000)] draws 0 the tag
    [omitempty] leaves [request_id] out of the request. *)
Lemma send_drops_zero_request_id :
  written (snd (observeProperty (env_draw 0) (player false []) "time-pos" world0))
  = [JObject [("command", JArray [JString "observe_property"; JInt 1;
                                  JString "time-pos"])]] /\
  ~ every_request_has_id.
Proof.
  split; [reflexivity|].
  intros H.
  specialize (H (env_draw 0) (player false [])
                [AString "observe_property"; AInt 1; AString "time-pos"] world0).
  cbn in H. inversion H as [|? ? [_ Hid] _]. discriminate.
Qed.

(** C9, amended: every request that [send] writes is a JSON object with a
    member [command] holding the marshalled command; the correlation id is
    drawn in [0, 1000) and the object has the integer member [request_id],
    equal to the draw, exactly when the draw is not 0.  At most one request
    is written per call, and none when the command cannot be marshalled. *)
Theorem send_request_members (env : Env) (c : mpv) (command : list any)
  (w : World) :
  let id := rand_Intn env (n_rand w) mod 1000 in
  0 <= id < 1000 /\
  (written (snd (send env c command w)) = [] \/
   exists data cmd,
     written (snd (send env c command w)) = [data] /\
     marshal_any (AList command) = Some cmd /\
     field "command" data = Some cmd /\
     has_command data = true /\
     has_request_id data = negb (id =? 0) /\
     field "request_id" data = if id =? 0 then None else Some (JInt id)).
Proof.
  cbv zeta. split; [apply Z.mod_pos_bound; lia|].
  rewrite send_unfold. cbv zeta.
  destruct (marshal_any (AList command)) as [cmd|]; [|left; reflexivity].
  right.
  set (id := rand_Intn env (n_rand w) mod 1000).
  exists (JObject (("command", cmd)
            :: (if id =? 0 then [] else [("request_id", JInt id)]))), cmd.
  split; [destruct (conn_Write env (n_write w)); reflexivity|].
  split; [reflexivity|].
  destruct (id =? 0); repeat split; reflexivity.
Qed.

(** ** The playlist index map *)

Lemma loads_written_app (t1 t2 : list effect) :
  loads_written (t1 ++ t2) = (loads_written t1 ++ loads_written t2)%list.
Proof. unfold loads_written. rewrite written_app. apply flat_map_app. Qed.

Lemma loads_written_logged (l : level) (text : string) (tr : list effect) :
  loads_written (Logged l text :: tr) = loads_written tr.
Proof. reflexivity. Qed.

Lemma appendFile_loads (env : Env) (c : mpv) (url title : string) (w : World) :
  loads_written (snd (appendFile env c url title w)) = [(Append, url, title)].
Proof.
  unfold appendFile. rewrite send_unfold. cbv zeta.
  destruct (oldMpv c); cbn;
    destruct (conn_Write env (n_write w)); reflexivity.
Qed.

Lemma prependFile_loads (env : Env) (c : mpv) (url title : string) (w : World) :
  loads_written (snd (prependFile env c url title w))
  = if oldMpv c then [] else [(InsertFront, url, title)].
Proof.
  unfold prependFile. destruct (oldMpv c); [reflexivity|].
  rewrite send_unfold. cbv zeta. cbn.
  destruct (conn_Write env (n_write w)); reflexivity.
Qed.

Lemma playFile_loads (env : Env) (c : mpv) (url title : string)
  (start : float64) (w : World) :
  loads_written (snd (playFile env c url title start w)) = [(Replace, url, title)].
Proof.
  unfold playFile. rewrite send_unfold. cbv zeta.
  destruct (oldMpv c); cbn;
    destruct (conn_Write env (n_write w)); reflexivity.
Qed.

Lemma index_at_in_range {A} (l : list A) (i : Z) :
  0 <= i < len l -> exists a, index_at l i = Some a.
Proof.
  intros H. unfold index_at, len in *.
  replace (i <? 0) with false by (symmetry; apply Z.ltb_ge; lia).
  destruct (nth_error l (Z.to_nat i)) as [a|] eqn:E; [now exists a|].
  apply nth_error_None in E. lia.
Qed.

Lemma range_up_bounds (lo hi i : Z) : In i (range_up lo hi) -> lo <= i < hi.
Proof.
  unfold range_up. rewrite in_map_iff. intros (k & <- & Hk).
  apply in_seq in Hk. lia.
Qed.

Lemma range_down_bounds (hi i : Z) : In i (range_down hi) -> 0 <= i <= hi.
Proof.
  unfold range_down. rewrite in_map_iff. intros (k & <- & Hk).
  apply in_seq in Hk. lia.
Qed.

Lemma append_files_loads (env : Env) (c : mpv) (client : Client)
  (items : list Item) (idxs : list Z) :
  Forall (fun i => 0 <= i < len items) idxs ->
  forall ids w, exists w' tr,
    append_files env c client items idxs ids w = (Some (ids ++ idxs)%list, w', tr) /\
    loads_written tr
    = flat_map (load_for env client items) (map (pair Append) idxs).
Proof.
  induction 1 as [|i idxs Hi _ IH]; intros ids w.
  - exists w, []. cbn. now rewrite app_nil_r.
  - destruct (index_at_in_range items i Hi) as [it Hit].
    cbn [append_files map flat_map]. unfold load_for at 1. cbn [fst snd].
    rewrite Hit. unfold bind.
    pose proof (appendFile_loads env c
                  (GetStreamingURL env (Host client) it)
                  (GetMediaTitle env it) w) as HL.
    destruct (appendFile env c _ _ w) as [[err w1] t1]. cbn [snd] in HL.
    destruct (IH (ids ++ [i])%list w1) as (w' & tr & E & HT).
    destruct err; cbn; rewrite E; eexists; eexists;
      (split; [rewrite <- app_assoc; reflexivity|]);
      rewrite !loads_written_app, ?loads_written_logged, HL, HT; reflexivity.
Qed.

Lemma prepend_files_loads (env : Env) (c : mpv) (client : Client)
  (items : list Item) (idxs : list Z) :
  Forall (fun i => 0 <= i < len items) idxs ->
  forall ids w, exists w' tr,
    prepend_files env c client items idxs ids w = (Some (ids ++ idxs)%list, w', tr) /\
    loads_written tr
    = if oldMpv c then []
      else flat_map (load_for env client items) (map (pair InsertFront) idxs).
Proof.
  induction 1 as [|i idxs Hi _ IH]; intros ids w.
  - exists w, []. cbn. rewrite app_nil_r. now destruct (oldMpv c).
  - destruct (index_at_in_range items i Hi) as [it Hit].
    cbn [prepend_files map flat_map]. unfold load_for at 1. cbn [fst snd].
    rewrite Hit. unfold bind.
    pose proof (prependFile_loads env c
                  (GetStreamingURL env (Host client) it)
                  (GetMediaTitle env it) w) as HL.
    destruct (prependFile env c _ _ w) as [[err w1] t1]. cbn [snd] in HL.
    destruct (IH (ids ++ [i])%list w1) as (w' & tr & E & HT).
    destruct err; cbn; rewrite E; eexists; eexists;
      (split; [rewrite <- app_assoc; reflexivity|]);
      rewrite !loads_written_app, ?loads_written_logged, HL, HT;
      destruct (oldMpv c); reflexivity.
Qed.

(** The playlist construction in full, for both kinds of player: with a
    start index in range and the first request written, the slice
    [playlistIDs] is the start index, the later indices ascending and the
    earlier ones descending; an old player is sent no insert command. *)
Lemma load_playlist_loads (env : Env) (c : mpv) (client : Client)
  (items : list Item) (s : Z) (w : World) :
  0 <= s < len items ->
  conn_Write env (n_write w) = true ->
  exists w' tr,
    load_playlist env c client items s w
    = (inr (map snd (load_plan (len items) s)), w', tr) /\
    loads_written tr
    = (flat_map (load_for env client items)
         ((Replace, s) :: map (pair Append) (range_up (s + 1) (len items)))
       ++ if oldMpv c then []
          else flat_map (load_for env client items)
                 (map (pair InsertFront) (range_down (s - 1))))%list.
Proof.
  intros Hs Hw.
  destruct (index_at_in_range items s Hs) as [it Hit].
  unfold load_playlist. rewrite Hit. unfold bind.
  pose proof (playFile_loads env c (GetStreamingURL env (Host client) it)
                (GetMediaTitle env it)
                (ticksToSeconds (GetResumePosition env it)) w) as HL.
  assert (HE : fst (fst (playFile env c (GetStreamingURL env (Host client) it)
                (GetMediaTitle env it)
                (ticksToSeconds (GetResumePosition env it)) w)) = None).
  { unfold playFile. rewrite send_unfold. cbv zeta. rewrite Hw.
    destruct (oldMpv c); reflexivity. }
  destruct (playFile env c _ _ _ w) as [[err w1] t1].
  cbn [fst snd] in HL, HE. subst err.
  assert (Hup : Forall (fun i => 0 <= i < len items) (range_up (s + 1) (len items))).
  { apply Forall_forall. intros i Hi. apply range_up_bounds in Hi. lia. }
  assert (Hdown : Forall (fun i => 0 <= i < len items) (range_down (s - 1))).
  { apply Forall_forall. intros i Hi. apply range_down_bounds in Hi. lia. }
  destruct (append_files_loads env c client items _ Hup [s] w1)
    as (w2 & t2 & E2 & HT2).
  rewrite E2.
  destruct (prepend_files_loads env c client items _ Hdown
              ([s] ++ range_up (s + 1) (len items))%list w2)
    as (w3 & t3 & E3 & HT3).
  rewrite E3. cbn [ret].
  eexists. eexists. split.
  - unfold load_plan. cbn [map snd]. rewrite map_app, !map_map. cbn [snd].
    rewrite !map_id. reflexivity.
  - rewrite !loads_written_app, HL, HT2, HT3. cbn [loads_written written].
    cbn [flat_map]. unfold load_for at 3. cbn [fst snd]. rewrite Hit.
    change (loads_written []) with (@nil (load_kind * string * string)).
    rewrite app_nil_r, <- app_assoc. reflexivity.
Qed.

(** C1, as stated, fails on an old player: for items A, B, C, D and start
    index 2 the requests written are replace(C) and append(D) only, while
    the plan also has insert-front(B) and insert-front(A). *)
Lemma old_player_is_sent_no_insert :
  fst (fst (load_playlist env_ok (player true []) the_client
              [itemA; itemB; itemC; itemD] 2 world0)) = inr [2; 3; 1; 0] /\
  loads_written (snd (load_playlist env_ok (player true []) the_client
                        [itemA; itemB; itemC; itemD] 2 world0))
  = [(Replace, "http://jf/Videos/c", "C"); (Append, "http://jf/Videos/d", "D")] /\
  ~ loads_follow_plan.
Proof.
  split; [vm_compute; reflexivity|]. split; [vm_compute; reflexivity|].
  intros H.
  pose proof (H env_ok (player true []) the_client
                [itemA; itemB; itemC; itemD] 2 world0) as H'.
  remember (load_playlist env_ok (player true []) the_client
              [itemA; itemB; itemC; itemD] 2 world0) as r eqn:E.
  vm_compute in E. subst r.
  destruct (H' _ _ _ eq_refl) as [H1 _].
  vm_compute in H1. discriminate.
Qed.

(** C1, amended: for every item list and start index s within it, once the
    load-replace request has been written to a player that is not old,
    [Play] writes load-replace for item s, then load-append for items
    s+1 .. n-1 ascending, then load-insert-at-front for items s-1 .. 0
    descending, and the slot map sends slot k (1-based, in the order of
    writing) to the index loaded by the k-th command; for four items and
    start index 2 the slot map is 1->2, 2->3, 3->1, 4->0. *)
Theorem load_playlist_follows_plan (env : Env) (c : mpv) (client : Client)
  (items : list Item) (s : Z) (w : World) :
  oldMpv c = false ->
  0 <= s < len items ->
  conn_Write env (n_write w) = true ->
  (exists w' tr ids,
     load_playlist env c client items s w = (inr ids, w', tr) /\
     ids = map snd (load_plan (len items) s) /\
     loads_written tr
     = flat_map (load_for env client items) (load_plan (len items) s)) /\
  map snd (load_plan 4 2) = [2; 3; 1; 0] /\
  map fst (load_plan 4 2) = [Replace; Append; InsertFront; InsertFront].
Proof.
  intros Hold Hs Hw. split; [|split; reflexivity].
  destruct (load_playlist_loads env c client items s w Hs Hw)
    as (w' & tr & E & HT).
  exists w', tr, (map snd (load_plan (len items) s)).
  split; [exact E|]. split; [reflexivity|].
  rewrite HT, Hold. unfold load_plan.
  change ((Replace, s) :: ?l ++ ?r)%list with (((Replace, s) :: l) ++ r)%list.
  now rewrite flat_map_app.
Qed.

Lemma load_playlist_follows_plan_witness :
  exists w' tr ids,
    load_playlist env_ok (player false []) the_client
      [itemA; itemB; itemC; itemD] 2 world0 = (inr ids, w', tr) /\
    ids = map snd (load_plan 4 2) /\
    loads_written tr
    = flat_map (load_for env_ok the_client [itemA; itemB; itemC; itemD])
        (load_plan 4 2).
Proof.
  apply (load_playlist_follows_plan env_ok (player false []) the_client
           [itemA; itemB; itemC; itemD] 2 world0).
  - reflexivity.
  - cbn. lia.
  - reflexivity.
Defined.

Lemma flat_map_load_for_length (env : Env) (client : Client)
  (items : list Item) (k : load_kind) (idxs : list Z) :
  Forall (fun i => 0 <= i < len items) idxs ->
  List.length (flat_map (load_for env client items) (map (pair k) idxs))
  = List.length idxs.
Proof.
  induction 1 as [|i idxs Hi _ IH]; [reflexivity|].
  cbn [map flat_map]. rewrite length_app, IH. unfold load_for. cbn [snd].
  destruct (index_at_in_range items i Hi) as [it ->]. reflexivity.
Qed.

(** How many entries the slot map has and how many load commands were
    written, for both kinds of player. *)
Lemma slot_map_and_loads_lengths (env : Env) (c : mpv) (client : Client)
  (items : list Item) (s : Z) (w : World) :
  0 <= s < len items ->
  conn_Write env (n_write w) = true ->
  exists w' tr ids,
    load_playlist env c client items s w = (inr ids, w', tr) /\
    len ids = len items /\
    len (loads_written tr) = if oldMpv c then len items - s else len items.
Proof.
  intros Hs Hw.
  destruct (load_playlist_loads env c client items s w Hs Hw)
    as (w' & tr & E & HT).
  exists w', tr, (map snd (load_plan (len items) s)).
  split; [exact E|].
  assert (Hup : Forall (fun i => 0 <= i < len items) (range_up (s + 1) (len items))).
  { apply Forall_forall. intros i Hi. apply range_up_bounds in Hi. lia. }
  assert (Hdown : Forall (fun i => 0 <= i < len items) (range_down (s - 1))).
  { apply Forall_forall. intros i Hi. apply range_down_bounds in Hi. lia. }
  assert (Lup : List.length (range_up (s + 1) (len items))
                = Z.to_nat (len items - (s + 1))).
  { unfold range_up. now rewrite length_map, length_seq. }
  assert (Ldown : List.length (range_down (s - 1)) = Z.to_nat s).
  { unfold range_down. rewrite length_map, length_seq. f_equal. lia. }
  split.
  - unfold len at 1, load_plan. cbn [map List.length].
    rewrite length_map, length_app, !length_map, Lup, Ldown. lia.
  - rewrite HT. unfold len at 1. cbn [flat_map]. rewrite !length_app.
    rewrite (flat_map_load_for_length env client items Append _ Hup), Lup.
    unfold load_for at 1. cbn [snd].
    destruct (index_at_in_range items s Hs) as [it ->]. cbn [List.length].
    destruct (oldMpv c).
    + cbn [List.length]. lia.
    + rewrite (flat_map_load_for_length env client items InsertFront _ Hdown),
        Ldown. lia.
Qed.

(** C7 on an old player, items A, B and start index 1: one load command is
    written (replace B; the insert of A is refused), yet the slot map has
    two entries. *)
Theorem old_player_slot_map_outgrows_loads :
  fst (fst (load_playlist env_ok (player true []) the_client
              [itemA; itemB] 1 world0)) = inr [1; 0] /\
  written (snd (load_playlist env_ok (player true []) the_client
                  [itemA; itemB] 1 world0))
  = [JObject [("command",
               JArray [JString "loadfile"; JString "http://jf/Videos/b";
                       JString "replace";
                       JObject [("force-media-title", JString "B");
                                ("start", JString "0.000000")]]);
              ("request_id", JInt 7)]] /\
  ~ slots_count_loads.
Proof.
  split; [vm_compute; reflexivity|]. split; [vm_compute; reflexivity|].
  intros H.
  pose proof (H env_ok (player true []) the_client [itemA; itemB] 1 world0)
    as H'.
  remember (load_playlist env_ok (player true []) the_client
              [itemA; itemB] 1 world0) as r eqn:E.
  vm_compute in E. subst r.
  specialize (H' _ _ _ eq_refl). vm_compute in H'. discriminate.
Qed.

(** ** The event loop *)

Lemma quiet_ret {A} (a : A) : quiet (ret a).
Proof. intros w. cbn. auto. Qed.

Lemma quiet_slog (l : level) (text : string) : quiet (slog l text).
Proof. intros w. cbn. auto. Qed.

Lemma quiet_bind {A B} (m : M A) (k : A -> M B) :
  quiet m -> (forall a, quiet (k a)) -> quiet (bind m k).
Proof.
  intros Hm Hk w. unfold bind.
  destruct (Hm w) as (R1 & C1 & N1).
  destruct (m w) as [[a w1] t1]. cbn [fst snd] in *.
  destruct (Hk a w1) as (R2 & C2 & N2).
  destruct (k a w1) as [[b w2] t2]. cbn [fst snd] in *.
  rewrite reports_of_app, R1, R2. repeat split; congruence.
Qed.

Lemma quiet_send (env : Env) (c : mpv) (command : list any) :
  quiet (send env c command).
Proof.
  intros w. rewrite send_unfold. cbv zeta.
  destruct (marshal_any (AList command)); [|cbn; auto].
  destruct (conn_Write env (n_write w)); cbn; auto.
Qed.

Lemma quiet_skip_segment (env : Env) (c : mpv) (st : session) :
  quiet (skip_segment env c st).
Proof.
  unfold skip_segment.
  destruct (negb _); [|apply quiet_ret].
  apply quiet_bind; [apply quiet_send|].
  intros [e|]; apply quiet_slog.
Qed.

Lemma quiet_add_segments (segments : list (Z * Z)) :
  forall m, quiet (add_segments segments m).
Proof.
  induction segments as [|[a b] rest IH]; intros m; cbn [add_segments].
  - apply quiet_ret.
  - apply quiet_bind; [apply quiet_slog|]. intros _. apply IH.
Qed.

Lemma quiet_add_subtitles (env : Env) (c : mpv) (client : Client)
  (subtitles : list (string * string * string)) :
  quiet (add_subtitles env c client subtitles).
Proof.
  induction subtitles as [|[[p t] l] rest IH]; cbn [add_subtitles].
  - apply quiet_ret.
  - apply quiet_bind; [apply quiet_send|]. intros err.
    apply quiet_bind; [destruct err; apply quiet_slog|]. intros _. apply IH.
Qed.

Lemma add_segments_install (segments : list (Z * Z)) :
  forall m w, fst (fst (add_segments segments m w)) = install segments m.
Proof.
  induction segments as [|[a b] rest IH]; intros m w; [reflexivity|].
  cbn [add_segments]. unfold bind, slog, emit.
  specialize (IH (map_set m (ticksToSeconds a) (ticksToSeconds b)) w).
  destruct (add_segments rest _ w) as [[m' w'] t']. cbn [fst] in *.
  exact IH.
Qed.

(** A numeric time-pos event, in full: the position becomes the data; a
    progress report is made exactly when more than 3 seconds have elapsed
    on the clock since the debounce timestamp; the timestamp moves, to the
    next reading of the clock, only when that report succeeds. *)
Lemma on_time_pos_numeric (env : Env) (c : mpv) (st : session)
  (msg : message) (data : float64) (w : World) :
  Data msg = AFloat data ->
  let due := elapsed env st (n_clock w) >? 3 * Second in
  let ok := report_result env (n_remote w) in
  exists w' tr,
    on_time_pos env c st msg w
    = (Continue
         {| item := item st; pos := data;
            lastProgressUpdate :=
              if due && ok then time_Now env (S (n_clock w))
              else lastProgressUpdate st;
            skippableSegments := skippableSegments st |}, w', tr) /\
    reports_of tr
    = (if due then [(Progress, item st, secondsToTicks data, ok)] else []) /\
    n_remote w' = (if due then S (n_remote w) else n_remote w) /\
    n_clock w' = (if due && ok then S (S (n_clock w)) else S (n_clock w)).
Proof.
  intros HD. cbv zeta. unfold on_time_pos. rewrite HD. unfold bind.
  destruct (quiet_skip_segment env c (set_pos st data) w) as (R1 & C1 & N1).
  destruct (skip_segment env c (set_pos st data) w) as [[u w1] t1].
  cbn [fst snd] in R1, C1, N1.
  unfold read_clock, elapsed. cbn [n_clock n_remote n_rand n_write].
  rewrite C1. cbn [set_pos lastProgressUpdate].
  destruct (Sub (time_Now env (n_clock w)) (lastProgressUpdate st) >? 3 * Second).
  - unfold ReportPlaybackProgress, remote_report.
    cbn [n_clock n_remote n_rand n_write item pos]. rewrite N1.
    destruct (report_result env (n_remote w)); cbn;
      eexists; eexists; (split; [reflexivity|]);
      rewrite !reports_of_app, R1; cbn; rewrite ?C1; auto.
  - cbn. eexists; eexists; (split; [destruct st; reflexivity|]).
    rewrite !reports_of_app, R1. cbn. auto.
Qed.

Lemma handle_line_time_pos (env : Env) (c : mpv) (client : Client)
  (items : list Item) (ids : list Z) (st : session) (msg : message) :
  Event msg = "property-change" -> Name msg = "time-pos" ->
  handle_line env c client items ids st (MsgLine msg)
  = on_time_pos env c st msg.
Proof.
  intros HE HN. unfold handle_line, dispatch. now rewrite HE, HN.
Qed.

Lemma Sub_monotone (t t' u : Time) : t <= t' -> Sub t u <= Sub t' u.
Proof.
  intros H. unfold Sub.
  destruct (t - u <? minInt64) eqn:A; destruct (t' - u <? minInt64) eqn:A';
    destruct (t - u >? maxInt64) eqn:B; destruct (t' - u >? maxInt64) eqn:B';
    unfold minInt64, maxInt64 in *; lia.
Qed.

(** C5, as stated, fails: with exactly 3 seconds elapsed since the debounce
    timestamp a numeric time-pos event makes no progress report. *)
Lemma no_report_at_exactly_three_seconds :
  elapsed env_ok (session0 itemA 0) (n_clock (world_at 3)) = 3 * Second /\
  reports_of (snd (on_time_pos env_ok (player false []) (session0 itemA 0)
                     (time_pos (AFloat (of_int 42))) (world_at 3))) = [] /\
  ~ reports_from_three_seconds.
Proof.
  split; [reflexivity|]. split; [reflexivity|].
  intros H.
  destruct (H env_ok (player false []) (session0 itemA 0)
              (time_pos (AFloat (of_int 42))) (of_int 42) (world_at 3) eq_refl)
    as [_ H2].
  apply H2; [|reflexivity].
  change (elapsed env_ok (session0 itemA 0) (n_clock (world_at 3)))
    with (3 * Second). lia.
Qed.

(** C5, amended: for every numeric time-pos property-change event a
    progress report is made if and only if more than 3 seconds have elapsed
    on the clock since the debounce timestamp; the timestamp is set to the
    next reading of the clock when the report succeeds, and a failed report
    leaves it where it was, so that the next numeric time-pos event, met at
    a clock reading that is not earlier, reports again. *)
Theorem progress_report_debounce (env : Env) (c : mpv) (client : Client)
  (items : list Item) (ids : list Z) (st : session) (msg : message)
  (data : float64) (w : World) :
  Event msg = "property-change" -> Name msg = "time-pos" ->
  Data msg = AFloat data ->
  let due := elapsed env st (n_clock w) >? 3 * Second in
  let ok := report_result env (n_remote w) in
  exists st' w' tr,
    handle_line env c client items ids st (MsgLine msg) w
    = (Continue st', w', tr) /\
    reports_of tr
    = (if due then [(Progress, item st, secondsToTicks data, ok)] else []) /\
    lastProgressUpdate st'
    = (if due && ok then time_Now env (S (n_clock w))
       else lastProgressUpdate st) /\
    (due = true -> ok = false ->
     forall msg2 data2 w2,
       Event msg2 = "property-change" -> Name msg2 = "time-pos" ->
       Data msg2 = AFloat data2 ->
       time_Now env (n_clock w) <= time_Now env (n_clock w2) ->
       reports_of (snd (handle_line env c client items ids st' (MsgLine msg2) w2))
       = [(Progress, item st, secondsToTicks data2,
           report_result env (n_remote w2))]).
Proof.
  intros HE HN HD. cbv zeta.
  rewrite (handle_line_time_pos env c client items ids st msg HE HN).
  destruct (on_time_pos_numeric env c st msg data w HD)
    as (w' & tr & E & HR & _ & _).
  cbv zeta in E, HR. rewrite E.
  eexists. eexists. eexists. split; [reflexivity|].
  split; [exact HR|]. split; [reflexivity|].
  intros Hdue Hok msg2 data2 w2 HE2 HN2 HD2 Hclock.
  rewrite Hdue, Hok. cbn [andb].
  rewrite (handle_line_time_pos env c client items ids _ msg2 HE2 HN2).
  match goal with |- context [on_time_pos env c ?s msg2 w2] =>
    destruct (on_time_pos_numeric env c s msg2 data2 w2 HD2)
      as (w2' & tr2 & E2 & HR2 & _ & _)
  end.
  cbv zeta in E2, HR2. rewrite E2. cbn [snd]. rewrite HR2.
  unfold elapsed in *. cbn [lastProgressUpdate item].
  apply Z.gtb_lt in Hdue.
  pose proof (Sub_monotone _ _ (lastProgressUpdate st) Hclock) as Hm.
  replace (Sub (time_Now env (n_clock w2)) (lastProgressUpdate st) >? 3 * Second)
    with true by (symmetry; apply Z.gtb_lt; lia).
  reflexivity.
Qed.

Lemma progress_report_debounce_witness :
  exists st' w' tr,
    handle_line env_failing_reports (player false []) the_client [itemA] [0]
      (session0 itemA 0) (MsgLine (time_pos (AFloat (of_int 42)))) (world_at 4)
    = (Continue st', w', tr) /\
    reports_of tr = [(Progress, itemA, secondsToTicks (of_int 42), false)] /\
    lastProgressUpdate st' = 0.
Proof.
  destruct (progress_report_debounce env_failing_reports (player false [])
              the_client [itemA] [0] (session0 itemA 0)
              (time_pos (AFloat (of_int 42))) (of_int 42) (world_at 4)
              eq_refl eq_refl eq_refl) as (st' & w' & tr & E & HR & HL & _).
  exists st', w', tr. split; [exact E|]. split; [exact HR|exact HL].
Defined.

Lemma index_at_some_lt {A} (l : list A) (i : Z) (a : A) :
  index_at l i = Some a -> 0 <= i < len l.
Proof.
  unfold index_at, len. destruct (i <? 0) eqn:E; [discriminate|].
  intros H. apply Z.ltb_ge in E.
  assert (nth_error l (Z.to_nat i) <> None) as Hn by congruence.
  apply nth_error_Some in Hn. lia.
Qed.

(** A start-file event whose slot the map resolves, in full: the item
    becomes the resolved one, a start report is made at the position the
    session holds, the fetched segments are added to the segment map, and
    the position and the debounce timestamp stay. *)
Lemma on_start_file_resolved (env : Env) (c : mpv) (client : Client)
  (items : list Item) (ids : list Z) (st : session) (msg : message)
  (w : World) (idx : Z) (it : Item) :
  index_at ids (wrap_int (PlaylistID msg - 1)) = Some idx ->
  index_at items idx = Some it ->
  exists w' tr,
    on_start_file env c client items ids st msg w
    = (Continue
         {| item := it; pos := pos st;
            lastProgressUpdate := lastProgressUpdate st;
            skippableSegments :=
              install (fst (media_segments env (S (n_remote w)) it))
                (skippableSegments st) |}, w', tr) /\
    reports_of tr
    = [(Start, it, secondsToTicks (pos st), report_result env (n_remote w))].
Proof.
  intros Hidx Hit. unfold on_start_file.
  pose proof (index_at_some_lt _ _ _ Hidx) as Hlt.
  replace (wrap_int (PlaylistID msg - 1) >=? len ids) with false
    by (symmetry; rewrite Z.geb_leb; apply Z.leb_gt; lia).
  rewrite Hidx, Hit.
  unfold bind, slog, emit, ReportPlaybackStart, remote_report,
    GetMediaSegments.
  cbn -[secondsToTicks install add_segments add_subtitles len].
  destruct (report_result env (n_remote w));
    cbn -[secondsToTicks install add_segments add_subtitles len];
    destruct (media_segments env (S (n_remote w)) it) as [segments err];
    destruct err; destruct (len segments =? 0);
    cbn -[secondsToTicks install add_segments add_subtitles len];
    match goal with
    | |- context [add_segments ?s ?m ?w0] =>
        pose proof (add_segments_install s m w0) as HI;
        destruct (quiet_add_segments s m w0) as (RD & _);
        destruct (add_segments s m w0) as [[m' w2] td]
    end;
    cbn [fst snd] in HI, RD; subst m';
    cbn [set_skippableSegments item pos lastProgressUpdate skippableSegments];
    match goal with
    | |- context [add_subtitles ?e ?c0 ?cl ?subs ?w0] =>
        destruct (quiet_add_subtitles e c0 cl subs w0) as (RE & _);
        destruct (add_subtitles e c0 cl subs w0) as [[u w3] te]
    end;
    cbn [snd] in RE;
    (eexists; eexists; split; [reflexivity|]);
    cbn [app]; rewrite ?reports_of_app; cbn [reports_of flat_map app];
    fold (reports_of td); fold (reports_of te);
    rewrite ?reports_of_app, ?RD, ?RE; reflexivity.
Qed.

(** A start-file event in all its cases: either the slot resolves, and then
    a start report is made at the position the session holds, which stays;
    or [Play] ends there without any report. *)
Lemma on_start_file_cases (env : Env) (c : mpv) (client : Client)
  (items : list Item) (ids : list Z) (st : session) (msg : message)
  (w : World) :
  (exists st' w' tr,
     on_start_file env c client items ids st msg w = (Continue st', w', tr) /\
     pos st' = pos st /\
     lastProgressUpdate st' = lastProgressUpdate st /\
     skippableSegments st'
     = install (fst (media_segments env (S (n_remote w)) (item st')))
         (skippableSegments st) /\
     reports_of tr
     = [(Start, item st', secondsToTicks (pos st),
         report_result env (n_remote w))]) \/
  (exists r w' tr,
     on_start_file env c client items ids st msg w = (Exit r, w', tr) /\
     reports_of tr = []).
Proof.
  destruct (index_at ids (wrap_int (PlaylistID msg - 1))) as [idx|] eqn:Hidx.
  - destruct (index_at items idx) as [it|] eqn:Hit.
    + left.
      destruct (on_start_file_resolved env c client items ids st msg w idx it
                  Hidx Hit) as (w' & tr & E & HR).
      eexists. exists w', tr. split; [exact E|]. cbn. auto.
    + right. unfold on_start_file.
      pose proof (index_at_some_lt _ _ _ Hidx) as Hlt.
      replace (wrap_int (PlaylistID msg - 1) >=? len ids) with false
        by (symmetry; rewrite Z.geb_leb; apply Z.leb_gt; lia).
      rewrite Hidx, Hit. eexists. eexists. eexists. split; reflexivity.
  - right. unfold on_start_file. rewrite Hidx.
    destruct (wrap_int (PlaylistID msg - 1) >=? len ids);
      eexists; eexists; eexists; split; reflexivity.
Qed.

(** Every turn of the loop: the position after it is the number carried by
    a time-pos line and the old position otherwise, and every report made
    during it carries that position in ticks. *)
Lemma handle_line_pos_reports (env : Env) (c : mpv) (client : Client)
  (items : list Item) (ids : list Z) (st : session) (l : line) (w : World) :
  let n := fst (fst (handle_line env c client items ids st l w)) in
  let tr := snd (handle_line env c client items ids st l w) in
  pos_after n st
  = match time_pos_of l with Some data => data | None => pos st end /\
  Forall (fun r => ticks_of r = secondsToTicks (pos_after n st))
    (reports_of tr).
Proof.
  cbv zeta. unfold ticks_of. destruct l as [|raw|msg]; try (cbn; auto; fail).
  unfold handle_line, dispatch, time_pos_of.
  destruct (String.eqb (Event msg) "property-change") eqn:E1.
  - destruct (String.eqb (Name msg) "time-pos") eqn:E2; [|cbn; auto].
    cbn [andb].
    destruct (Data msg) as [| | |data| | |] eqn:HD;
      try (unfold on_time_pos; rewrite HD; cbn; auto; fail).
    destruct (on_time_pos_numeric env c st msg data w HD)
      as (w' & tr & E & HR & _).
    cbv zeta in E, HR. rewrite E. cbn [fst snd pos_after pos].
    split; [reflexivity|]. rewrite HR.
    destruct (elapsed env st (n_clock w) >? 3 * Second); repeat constructor.
  - cbn [andb].
    destruct (String.eqb (Event msg) "start-file").
    { destruct (on_start_file_cases env c client items ids st msg w)
        as [(st' & w' & tr & E & HP & _ & _ & HR)|(r & w' & tr & E & HR)];
        rewrite E; cbn [fst snd pos_after]; rewrite HR.
      - split; [exact HP|]. rewrite HP. repeat constructor.
      - split; [reflexivity|constructor]. }
    destruct (String.eqb (Event msg) "seek"); [cbn; auto|].
    destruct (String.eqb (Event msg) "end-file"
              || String.eqb (Event msg) "shutdown"); [|cbn; auto].
    unfold bind, slog, emit, ReportPlaybackStopped, remote_report.
    destruct (report_result env (n_remote w)); cbn -[secondsToTicks];
      split; try reflexivity; repeat constructor.
Qed.

Lemma holds_on_sound (f : Z -> bool) (p : positive) :
  forall lo, holds_on f p lo = true ->
             forall n, lo <= n < lo + Zpos p -> f n = true.
Proof.
  induction p as [p IH|p IH|]; intros lo H n Hn; cbn [holds_on] in H.
  - apply andb_prop in H as [H H2]. apply andb_prop in H as [H0 H1].
    destruct (Z.eq_dec n lo) as [->|]; [exact H0|].
    destruct (Z_lt_ge_dec n (lo + 1 + Zpos p)).
    + apply (IH _ H1). lia.
    + apply (IH _ H2). lia.
  - apply andb_prop in H as [H1 H2].
    destruct (Z_lt_ge_dec n (lo + Zpos p)).
    + apply (IH _ H1). lia.
    + apply (IH _ H2). lia.
  - replace n with lo by lia. exact H.
Qed.

(** On whole seconds below 16384 (four and a half hours) the conversion is
    exact. *)
Lemma whole_seconds_to_ticks (n : Z) :
  0 <= n < 16384 -> secondsToTicks (of_int n) = n * 10000000.
Proof.
  intros H. apply Z.eqb_eq.
  apply (holds_on_sound (fun k => secondsToTicks (of_int k) =? k * 10000000)
           16384 0); [vm_compute; reflexivity|lia].
Qed.

Lemma to_int64_truncates (x : float64) :
  is_finite x = true ->
  to_int64 x
  = (let t := Z.quot (value_num x) (value_den x) in
     if (minInt64 <=? t) && (t <=? maxInt64) then t else minInt64).
Proof.
  destruct x as [s| | |s m e]; try discriminate; intros _.
  - reflexivity.
  - cbv zeta. unfold to_int64, value_num, value_den.
    assert (Hv : (if s then - Z.shiftl (Zpos m) e else Z.shiftl (Zpos m) e)
                 = Z.quot ((if s then -1 else 1) * Zpos m * 2 ^ Z.max e 0)
                     (2 ^ Z.max (- e) 0)).
    { destruct (Z_lt_ge_dec e 0) as [Hneg|Hpos].
      - rewrite (Z.max_r e 0) by lia. rewrite (Z.max_l (- e) 0) by lia.
        rewrite Z.shiftl_div_pow2 by lia.
        assert (Hd : 0 < 2 ^ (- e)) by (apply Z.pow_pos_nonneg; lia).
        rewrite Z.pow_0_r, Z.mul_1_r.
        destruct s.
        + replace (-1 * Zpos m) with (- Zpos m) by lia.
          rewrite Z.quot_opp_l by lia.
          rewrite Z.quot_div_nonneg by lia. reflexivity.
        + rewrite Z.mul_1_l. rewrite Z.quot_div_nonneg by lia. reflexivity.
      - rewrite (Z.max_l e 0) by lia. rewrite (Z.max_r (- e) 0) by lia.
        rewrite Z.shiftl_mul_pow2 by lia.
        rewrite Z.pow_0_r, Z.quot_1_r. destruct s; lia. }
    rewrite Hv. reflexivity.
Qed.

(** C8, as stated, fails: at the position 1.13 s (the float64 nearest to
    it) the progress report carries 11299999 ticks, which is not the
    position times 10,000,000, nor the integer nearest to it (11300000);
    and at 10^12 s the float64 product is beyond int64 and the ticks are
    the smallest int64. *)
Lemma ticks_fall_short_of_scaled_seconds :
  reports_of (snd (handle_line env_ok (player false []) the_client [itemA] [0]
                     (session0 itemA 0)
                     (MsgLine (time_pos (AFloat (ratio 113 100))))
                     (world_at 4)))
  = [(Progress, itemA, 11299999, true)] /\
  ~ scaled_exactly (ratio 113 100) 11299999 /\
  (2 * 11299999 + 1) * value_den (ratio 113 100)
  < 2 * (value_num (ratio 113 100) * 10000000) /\
  secondsToTicks (of_int 1000000000000) = minInt64 /\
  ~ reports_carry_scaled_seconds.
Proof.
  split; [vm_compute; reflexivity|].
  assert (Hne : ~ scaled_exactly (ratio 113 100) 11299999).
  { intros [_ H]. vm_compute in H. discriminate. }
  split; [exact Hne|]. split; [vm_compute; reflexivity|].
  split; [vm_compute; reflexivity|].
  intros H.
  specialize (H env_ok (player false []) the_client [itemA] [0]
                (session0 itemA 0)
                (MsgLine (time_pos (AFloat (ratio 113 100)))) (world_at 4)).
  remember (handle_line env_ok (player false []) the_client [itemA] [0]
              (session0 itemA 0)
              (MsgLine (time_pos (AFloat (ratio 113 100)))) (world_at 4))
    as r eqn:E.
  vm_compute in E. subst r. cbn [fst snd reports_of flat_map app] in H.
  inversion H as [|? ? H1 _]. apply Hne. exact H1.
Qed.

(** C8, amended: in every turn of the event loop, whatever the session
    state and the line, each report made to the remote service (start,
    progress or stopped) carries [secondsToTicks] of the current position,
    the position being the one the turn leaves (a time-pos event first
    stores its number as the position and then reports).  [secondsToTicks]
    is the float64 product of the seconds and 10,000,000 with its fraction
    discarded (the quotient truncated towards zero), as long as that is an
    int64; for a product that is not a number, is infinite or is beyond
    int64 it is the smallest int64.  On whole seconds below 16384 the ticks
    are exactly the seconds times 10,000,000. *)
Theorem reports_carry_position_in_ticks (env : Env) (c : mpv)
  (client : Client) (items : list Item) (ids : list Z) (st : session)
  (l : line) (w : World) :
  let n := fst (fst (handle_line env c client items ids st l w)) in
  let tr := snd (handle_line env c client items ids st l w) in
  Forall (fun r => ticks_of r = secondsToTicks (pos_after n st))
    (reports_of tr) /\
  (forall x,
     let p := mul x (of_int 10000000) in
     let t := Z.quot (value_num p) (value_den p) in
     secondsToTicks x
     = if is_finite p && (minInt64 <=? t) && (t <=? maxInt64)
       then t else minInt64) /\
  (forall k, 0 <= k < 16384 -> secondsToTicks (of_int k) = k * 10000000) /\
  secondsToTicks (ratio 3 2) = 15000000 /\
  secondsToTicks (ratio 113 100) = 11299999.
Proof.
  cbv zeta. split; [|split; [|split; [|split; vm_compute; reflexivity]]].
  - destruct (handle_line_pos_reports env c client items ids st l w) as [_ HF].
    exact HF.
  - intros x. unfold secondsToTicks.
    destruct (is_finite (mul x (of_int 10000000))) eqn:Hf.
    + rewrite (to_int64_truncates _ Hf). cbv zeta. cbn [andb].
      reflexivity.
    + cbn [andb].
      destruct (mul x (of_int 10000000)); try discriminate; reflexivity.
  - exact whole_seconds_to_ticks.
Qed.


(** The event loop over [pre ++ post] is the turns over [pre] followed, if
    none of them ended [Play], by the event loop over [post]. *)
Lemma event_loop_app (env : Env) (c : mpv) (client : Client)
  (items : list Item) (ids : list Z) (pre post : list line) :
  forall st w,
    event_loop env c client items ids (pre ++ post) st w
    = let '(n, w1, t1) := run_lines env c client items ids pre st w in
      match n with
      | Continue st' =>
          let '(r, w2, t2) := event_loop env c client items ids post st' w1 in
          (r, w2, (t1 ++ t2)%list)
      | Exit r => (r, w1, t1)
      end.
Proof.
  induction pre as [|l rest IH]; intros st w.
  - cbn. now destruct (event_loop env c client items ids post st w) as [[r w2] t2].
  - cbn [app event_loop run_lines]. unfold bind.
    destruct (handle_line env c client items ids st l w) as [[n w'] t'].
    destruct n as [st'|r].
    + rewrite IH.
      destruct (run_lines env c client items ids rest st' w') as [[n2 w2] t2].
      destruct n2 as [st2|r2].
      * destruct (event_loop env c client items ids post st2 w2) as [[r w3] t3].
        now rewrite app_assoc.
      * reflexivity.
    + cbn. now rewrite app_nil_r.
Qed.

Lemma handle_line_start_file (env : Env) (c : mpv) (client : Client)
  (items : list Item) (ids : list Z) (st : session) (msg : message) :
  Event msg = "start-file" ->
  handle_line env c client items ids st (MsgLine msg)
  = on_start_file env c client items ids st msg.
Proof.
  intros HE. unfold handle_line, dispatch. now rewrite HE.
Qed.



(** C6, as stated, fails: an end-file message that follows a shutdown
    message is processed; it makes a second stop report. *)
Lemma lines_after_shutdown_are_processed :
  reports_of (snd (event_loop env_ok (player false []) the_client [itemA] [0]
                     [MsgLine (event "shutdown"); MsgLine (event "end-file")]
                     (session0 itemA 0) world0))
  = [(Stopped, itemA, 0, true); (Stopped, itemA, 0, true)] /\
  reports_of (snd (event_loop env_ok (player false []) the_client [itemA] [0]
                     [MsgLine (event "shutdown")]
                     (session0 itemA 0) world0))
  = [(Stopped, itemA, 0, true)] /\
  ~ shutdown_ends_the_loop.
Proof.
  split; [vm_compute; reflexivity|]. split; [vm_compute; reflexivity|].
  intros H.
  specialize (H env_ok (player false []) the_client [itemA] [0]
                (session0 itemA 0) (event "shutdown")
                [MsgLine (event "end-file")] world0 eq_refl).
  vm_compute in H. discriminate.
Qed.

(** C6, amended: a shutdown event makes a stop report at the current
    position and leaves the session as it is, but it does not end the event
    loop: the loop goes on with the lines that follow, and it ends when the
    scanner has no more lines, with the read error if there is one (or
    earlier, at a start-file event that ends [Play]). *)
Theorem shutdown_reports_and_loop_goes_on (env : Env) (c : mpv)
  (client : Client) (items : list Item) (ids : list Z) (st : session)
  (msg : message) (w : World) :
  Event msg = "shutdown" ->
  exists w1 t1,
    handle_line env c client items ids st (MsgLine msg) w
    = (Continue st, w1, t1) /\
    reports_of t1
    = [(Stopped, item st, secondsToTicks (pos st),
        report_result env (n_remote w))] /\
    (forall rest,
       event_loop env c client items ids (MsgLine msg :: rest) st w
       = let '(r, w2, t2) := event_loop env c client items ids rest st w1 in
         (r, w2, (t1 ++ t2)%list)) /\
    (forall st' w',
       event_loop env c client items ids [] st' w'
       = (Return (if scannerErr c then Some ErrRead else None), w', [])).
Proof.
  intros HE.
  assert (H : exists w1 t1,
             handle_line env c client items ids st (MsgLine msg) w
             = (Continue st, w1, t1) /\
             reports_of t1
             = [(Stopped, item st, secondsToTicks (pos st),
                 report_result env (n_remote w))]).
  { unfold handle_line, dispatch. rewrite HE.
    cbn -[secondsToTicks].
    destruct (report_result env (n_remote w)); cbn -[secondsToTicks];
      eexists; eexists; split; reflexivity. }
  destruct H as (w1 & t1 & E & HR).
  exists w1, t1. split; [exact E|]. split; [exact HR|]. split.
  - intros rest. cbn [event_loop]. unfold bind. rewrite E. reflexivity.
  - intros st' w'. cbn [event_loop]. now destruct (scannerErr c).
Qed.

Lemma shutdown_reports_and_loop_goes_on_witness :
  exists w1 t1,
    handle_line env_ok (player false []) the_client [itemA] [0]
      (session0 itemA 0) (MsgLine (event "shutdown")) world0
    = (Continue (session0 itemA 0), w1, t1) /\
    reports_of t1 = [(Stopped, itemA, 0, true)] /\
    event_loop env_ok (player false []) the_client [itemA] [0]
      [MsgLine (event "shutdown"); MsgLine (event "end-file")]
      (session0 itemA 0) world0
    = let '(r, w2, t2) :=
        event_loop env_ok (player false []) the_client [itemA] [0]
          [MsgLine (event "end-file")] (session0 itemA 0) w1 in
      (r, w2, (t1 ++ t2)%list).
Proof.
  destruct (shutdown_reports_and_loop_goes_on env_ok (player false [])
              the_client [itemA] [0] (session0 itemA 0) (event "shutdown")
              world0 eq_refl) as (w1 & t1 & E & HR & Hloop & _).
  exists w1, t1. split; [exact E|]. split; [exact HR|].
  exact (Hloop [MsgLine (event "end-file")]).
Defined.

(** A start-file event for a slot beyond the slot map ends [Play] with the
    error for an unknown playlist id. *)
Lemma start_file_beyond_map_is_an_error (env : Env) (c : mpv)
  (client : Client) (items : list Item) (ids : list Z) (st : session)
  (msg : message) (w : World) :
  len ids < PlaylistID msg <= maxInt64 ->
  on_start_file env c client items ids st msg w
  = (Exit (Return (Some (ErrUnknownPlaylistID (PlaylistID msg)))), w,
     [Logged Error_ "start-file event for unknown playlist id"]).
Proof.
  intros H. unfold on_start_file.
  assert (Hw : wrap_int (PlaylistID msg - 1) = PlaylistID msg - 1).
  { unfold wrap_int, maxInt64, len in *.
    rewrite Z.mod_small; lia. }
  rewrite Hw.
  replace (PlaylistID msg - 1 >=? len ids) with true
    by (symmetry; rewrite Z.geb_leb; apply Z.leb_le; lia).
  reflexivity.
Qed.

(** C2 at slot number 0, the value of [playlist_entry_id] when a start-file
    message does not carry it: the bound check passes -1 and the index
    expression [playlistIDs[-1]] panics, so [Play] neither returns an error
    nor goes on. *)
Theorem start_file_slot_zero_panics (env : Env) (c : mpv) (client : Client)
  (items : list Item) (ids : list Z) (st : session) (w : World) :
  on_start_file env c client items ids st (start_file 0) w
  = (Exit (Panic "index out of range"), w, []) /\
  fst (fst (Play env_ok (Some (player false [MsgLine (start_file 0)]))
              the_client [itemA; itemB] 0 world0))
  = Panic "index out of range" /\
  index_at ids (PlaylistID (start_file 0) - 1) = None /\
  ~ unknown_slot_is_an_error.
Proof.
  assert (H : on_start_file env c client items ids st (start_file 0) w
              = (Exit (Panic "index out of range"), w, [])).
  { unfold on_start_file. cbn [PlaylistID start_file].
    change (wrap_int (0 - 1)) with (-1).
    replace (-1 >=? len ids) with false
      by (symmetry; rewrite Z.geb_leb; apply Z.leb_gt; unfold len; lia).
    reflexivity. }
  split; [exact H|]. split; [vm_compute; reflexivity|].
  split; [reflexivity|].
  intros Hclaim.
  destruct (Hclaim env_ok (player false []) the_client [itemA] [0]
              (session0 itemA 0) (start_file 0) world0 eq_refl) as [e He].
  vm_compute in He. discriminate.
Qed.

(** C3 on two start-file events, for item A (segment 10 s to 20 s) and then
    for item B (segment 30 s to 40 s): after the second the segment map
    still holds the segment of A beside the one fetched for B, and a
    position of 15 s in B is inside a segment, with end 20 s. *)
Theorem segments_of_previous_item_remain :
  fst (fst (run_lines env_segments (player false []) the_client
              [itemA; itemB] [0; 1]
              [MsgLine (start_file 1); MsgLine (start_file 2)]
              (session0 itemA 0) world0))
  = Continue {| item := itemB; pos := of_int 0; lastProgressUpdate := 0;
                skippableSegments := [(of_int 10, of_int 20);
                                      (of_int 30, of_int 40)] |} /\
  install (fst (media_segments env_segments 0 itemB)) []
  = [(of_int 30, of_int 40)] /\
  isInsideSkippableSegment [(of_int 10, of_int 20); (of_int 30, of_int 40)]
    (of_int 15) = of_int 20 /\
  written (snd (Play env_segments
                  (Some (player false
                           [MsgLine (start_file 1); MsgLine (start_file 2);
                            MsgLine (time_pos (AFloat (of_int 15)))]))
                  the_client [itemA; itemB] 0 world0))
  = (written (snd (Play env_segments
                     (Some (player false
                              [MsgLine (start_file 1); MsgLine (start_file 2)]))
                     the_client [itemA; itemB] 0 world0))
     ++ [JObject [("command", JArray [JString "seek"; JFloat (of_int 20);
                                      JString "absolute"]);
                  ("request_id", JInt 10)]])%list /\
  ~ segments_are_replaced.
Proof.
  split; [vm_compute; reflexivity|]. split; [vm_compute; reflexivity|].
  split; [vm_compute; reflexivity|]. split; [vm_compute; reflexivity|].
  intros H.
  pose proof (H env_segments (player false []) the_client [itemA; itemB] [0; 1]
                {| item := itemA; pos := of_int 0; lastProgressUpdate := 0;
                   skippableSegments := [(of_int 10, of_int 20)] |}
                (start_file 2) (world_at 0)) as H'.
  remember (on_start_file env_segments (player false []) the_client
              [itemA; itemB] [0; 1]
              {| item := itemA; pos := of_int 0; lastProgressUpdate := 0;
                 skippableSegments := [(of_int 10, of_int 20)] |}
              (start_file 2) (world_at 0)) as r eqn:E.
  vm_compute in E. subst r.
  specialize (H' _ _ _ eq_refl). vm_compute in H'. discriminate.
Qed.

(** A seek event sets the debounce timestamp to the zero time, from which
    any reading of the clock after 1970 is more than 3 seconds away. *)
Lemma seek_resets_debounce (env : Env) (c : mpv) (client : Client)
  (items : list Item) (ids : list Z) (st : session) (msg : message)
  (w : World) :
  Event msg = "seek" ->
  handle_line env c client items ids st (MsgLine msg) w
  = (Continue (set_lastProgressUpdate st zeroTime), w,
     [Logged Info "received"]) /\
  (forall k, 0 <= time_Now env k ->
     (elapsed env (set_lastProgressUpdate st zeroTime) k >? 3 * Second) = true).
Proof.
  intros HE. split.
  - unfold handle_line, dispatch. rewrite HE. reflexivity.
  - intros k Hk. unfold elapsed, Sub.
    cbn [lastProgressUpdate set_lastProgressUpdate].
    unfold zeroTime, Second, minInt64, maxInt64.
    replace (time_Now env k - -62135596800 * 1000000000 <? - 2 ^ 63) with false
      by (symmetry; apply Z.ltb_ge; lia).
    replace (time_Now env k - -62135596800 * 1000000000 >? 2 ^ 63 - 1) with true
      by (symmetry; apply Z.gtb_lt; lia).
    reflexivity.
Qed.

(** ** jellyfin/client.go *)

(** The report methods of the package [jellyfin] send the position they
    are given, taken as seconds, times 10,000,000; the progress report is
    made when at least 3 seconds have passed since [lastProgressReport]. *)
Lemma client_reports_seconds_as_ticks (env : Env) (c : JellyfinClient.Client)
  (item : Item) (pos : Z) (w : World) :
  reports_of (snd (JellyfinClient.ReportPlaybackStopped env c item pos w))
  = [(Stopped, item, wrap_int (pos * 10000000),
      report_result env (n_remote w))] /\
  reports_of (snd (JellyfinClient.ReportPlaybackProgress env c item pos w))
  = (if Sub (time_Now env (n_clock w)) (JellyfinClient.lastProgressReport c)
        <? Second * 3
     then []
     else [(Progress, item, wrap_int (pos * 10000000),
            report_result env (n_remote w))]) /\
  (minInt64 <= pos * 10000000 <= maxInt64 ->
   wrap_int (pos * 10000000) = pos * 10000000).
Proof.
  split; [|split].
  - unfold JellyfinClient.ReportPlaybackStopped, bind, remote_report.
    destruct (report_result env (n_remote w)); reflexivity.
  - unfold JellyfinClient.ReportPlaybackProgress, bind, read_clock,
      remote_report.
    destruct (Sub (time_Now env (n_clock w))
                (JellyfinClient.lastProgressReport c) <? Second * 3);
      [reflexivity|].
    cbn [n_remote].
    destruct (report_result env (n_remote w)); reflexivity.
  - intros H. unfold wrap_int, minInt64, maxInt64 in *.
    rewrite Z.mod_small; lia.
Qed.

(** ** [Play] as a whole *)

(** Once the position property is observed and the playlist is loaded,
    [Play] reads the clock, enters the event loop at position 0 with the
    start item, and closes the player on the way out. *)
Lemma Play_enters_event_loop (env : Env) (c : mpv) (client : Client)
  (items : list Item) (index : Z) (w w1 w2 : World) (t1 t2 : list effect)
  (ids : list Z) (it : Item) :
  observeProperty env c "time-pos" w = (None, w1, t1) ->
  load_playlist env c client items index w1 = (inr ids, w2, t2) ->
  index_at items index = Some it ->
  Play env (Some c) client items index w
  = let '(r, w3, t3) :=
      event_loop env c client items ids (scanner c)
        (session0 it (time_Now env (n_clock w2)))
        {| n_rand := n_rand w2; n_write := n_write w2;
           n_clock := S (n_clock w2); n_remote := n_remote w2 |} in
    (r, w3, (t1 ++ t2 ++ t3 ++ [Closed])%list).
Proof.
  intros H1 H2 H3. unfold Play, bind. rewrite H1, H2, H3.
  unfold read_clock, close, emit, ret, session0.
  destruct (event_loop env c client items ids (scanner c) _ _) as [[r w3] t3].
  cbn [app]. now rewrite <- !app_assoc.
Qed.

(** The five commands of the vocabulary can always be marshalled, the seek
    command provided its position is finite; so each call of a command
    builder writes exactly one request, of the shape [send] gives it. *)
Lemma vocabulary_is_marshalled (url title lang name : string)
  (start pos : float64) (old : bool) :
  marshal_any (AList [AString "observe_property"; AInt 1; AString name])
  <> None /\
  (is_finite pos = true ->
   marshal_any (AList [AString "seek"; AFloat pos; AString "absolute"])
   <> None) /\
  marshal_any
    (AList [AString "loadfile"; AString url; AString "insert-at"; AInt 0;
            AMap [("force-media-title", AString title)]]) <> None /\
  marshal_any
    (AList ((if negb old
             then [AString "loadfile"; AString url; AString "append"; AInt 0]
             else [AString "loadfile"; AString url; AString "append"])
            ++ [AMap [("force-media-title", AString title)]])) <> None /\
  marshal_any
    (AList ((if negb old
             then [AString "loadfile"; AString url; AString "replace"; AInt 0]
             else [AString "loadfile"; AString url; AString "replace"])
            ++ [AMap [("force-media-title", AString title);
                      ("start", AString (FormatFloat_f6 start))]])) <> None /\
  marshal_any (AList [AString "sub-add"; AString url; AString "auto";
                      AString title; AString lang]) <> None.
Proof.
  repeat split; try discriminate.
  - intros H. cbn. rewrite H. discriminate.
  - destruct old; discriminate.
  - destruct old; discriminate.
Qed.

(** * Further properties of the code *)

(** ** The skip-segment lookup *)

Lemma inside_segment_cases (segments : segmap) (pos : float64) :
  (exists start,
     In (start, isInsideSkippableSegment segments pos) segments /\
     leb start pos = true /\
     ltb pos (isInsideSkippableSegment segments pos) = true) \/
  (isInsideSkippableSegment segments pos = zero /\
   forall se, In se segments -> contains pos se = false).
Proof.
  induction segments as [|[start end_] rest IH]; cbn [isInsideSkippableSegment].
  - right. split; [reflexivity|]. intros se [].
  - destruct (leb start pos && ltb pos end_) eqn:E.
    + left. apply andb_prop in E as [E1 E2]. exists start.
      split; [left; reflexivity|]. split; assumption.
    + destruct IH as [(start' & Hin & H1 & H2)|[Hz Hnone]].
      * left. exists start'. split; [right; exact Hin|]. split; assumption.
      * right. split; [exact Hz|]. intros se [<-|Hin]; [exact E|].
        now apply Hnone.
Qed.

(** X1: [isInsideSkippableSegment] answers either the end of a segment of
    the set that contains the position ([start <= pos < end], the end
    excluded), or 0 when no segment of the set contains it; on the empty
    set it answers 0. *)
Theorem inside_segment_sound_complete (segments : segmap) (pos : float64) :
  ((exists start,
      In (start, isInsideSkippableSegment segments pos) segments /\
      leb start pos = true /\
      ltb pos (isInsideSkippableSegment segments pos) = true) \/
   (isInsideSkippableSegment segments pos = zero /\
    forall se, In se segments -> contains pos se = false)) /\
  isInsideSkippableSegment [] pos = zero.
Proof.
  split; [apply inside_segment_cases|reflexivity].
Qed.

(** X2: when all the segments that contain the position end at the same
    point (in particular when at most one contains it), the answer of
    [isInsideSkippableSegment] does not depend on the order in which the
    entries of the map are visited. *)
Theorem inside_segment_order_irrelevant (segments segments' : segmap)
  (pos : float64) :
  Permutation segments segments' ->
  (forall se se', In se segments -> In se' segments ->
     contains pos se = true -> contains pos se' = true -> snd se = snd se') ->
  isInsideSkippableSegment segments' pos
  = isInsideSkippableSegment segments pos.
Proof.
  intros HP Hsame.
  destruct (inside_segment_cases segments pos)
    as [(s1 & In1 & L1 & R1)|[Z1 N1]];
  destruct (inside_segment_cases segments' pos)
    as [(s2 & In2 & L2 & R2)|[Z2 N2]].
  - apply (Permutation_in _ (Permutation_sym HP)) in In2.
    symmetry.
    apply (Hsame (s1, isInsideSkippableSegment segments pos)
                 (s2, isInsideSkippableSegment segments' pos) In1 In2);
      unfold contains; cbn [fst snd]; now rewrite ?L1, ?R1, ?L2, ?R2.
  - apply (Permutation_in _ HP) in In1. specialize (N2 _ In1).
    unfold contains in N2. cbn [fst snd] in N2. rewrite L1, R1 in N2.
    discriminate.
  - apply (Permutation_in _ (Permutation_sym HP)) in In2.
    specialize (N1 _ In2).
    unfold contains in N1. cbn [fst snd] in N1. rewrite L2, R2 in N1.
    discriminate.
  - congruence.
Qed.

Lemma inside_segment_order_irrelevant_witness :
  isInsideSkippableSegment [(of_int 30, of_int 40); (of_int 10, of_int 20)]
    (of_int 15)
  = isInsideSkippableSegment [(of_int 10, of_int 20); (of_int 30, of_int 40)]
      (of_int 15).
Proof.
  apply inside_segment_order_irrelevant.
  - apply perm_swap.
  - intros se se' [<-|[<-|[]]] [<-|[<-|[]]] H H';
      try reflexivity; vm_compute in H, H'; discriminate.
Defined.

(** ** Which effects a computation can have *)

Section OnlyEffects.

Variable P : effect -> Prop.
Hypothesis P_wrote : forall data ok, P (Wrote data ok).
Hypothesis P_logged : forall l text, P (Logged l text).
Hypothesis P_reported : forall kind it ticks ok, P (Reported kind it ticks ok).
Hypothesis P_fetched : forall it, P (FetchedSegments it).

Lemma only_ret {A} (a : A) : only P (ret a).
Proof. intros w. constructor. Qed.

Lemma only_bind {A B} (m : M A) (k : A -> M B) :
  only P m -> (forall a, only P (k a)) -> only P (bind m k).
Proof.
  intros Hm Hk w. unfold bind. specialize (Hm w).
  destruct (m w) as [[a w1] t1]. specialize (Hk a w1).
  destruct (k a w1) as [[b w2] t2]. cbn [snd] in *.
  apply Forall_app. now split.
Qed.

Lemma only_slog (l : level) (text : string) : only P (slog l text).
Proof. intros w. repeat constructor. apply P_logged. Qed.

Lemma only_read_clock (env : Env) : only P (read_clock env).
Proof. intros w. constructor. Qed.

Lemma only_send (env : Env) (c : mpv) (command : list any) :
  only P (send env c command).
Proof.
  intros w. rewrite send_unfold. cbv zeta.
  destruct (marshal_any (AList command)); [|constructor].
  destruct (conn_Write env (n_write w)); cbn [snd];
    repeat constructor; auto.
Qed.

Lemma only_remote_report (env : Env) (kind : report_kind) (it : Item)
  (ticks : Z) : only P (remote_report env kind it ticks).
Proof. intros w. repeat constructor. apply P_reported. Qed.

Lemma only_load_playlist (env : Env) (c : mpv) (client : Client)
  (items : list Item) (index : Z) :
  only P (load_playlist env c client items index).
Proof.
  assert (Happ : forall idxs ids,
             only P (append_files env c client items idxs ids)).
  { induction idxs as [|i idxs IH]; intros ids; cbn [append_files].
    - apply only_ret.
    - destruct (index_at items i); [|apply only_ret].
      apply only_bind; [apply only_send|]. intros err.
      apply only_bind; [destruct err; [apply only_slog|apply only_ret]|].
      intros _. apply IH. }
  assert (Hpre : forall idxs ids,
             only P (prepend_files env c client items idxs ids)).
  { induction idxs as [|i idxs IH]; intros ids; cbn [prepend_files].
    - apply only_ret.
    - destruct (index_at items i); [|apply only_ret].
      apply only_bind.
      + unfold prependFile. destruct (oldMpv c); [|apply only_send].
        apply only_bind; [apply only_slog|]. intros _. apply only_ret.
      + intros err.
        apply only_bind; [destruct err; [apply only_slog|apply only_ret]|].
        intros _. apply IH. }
  unfold load_playlist. destruct (index_at items index); [|apply only_ret].
  apply only_bind; [apply only_send|]. intros [e|]; [apply only_ret|].
  apply only_bind; [apply Happ|]. intros [ids|]; [|apply only_ret].
  apply only_bind; [apply Hpre|]. intros [ids'|]; apply only_ret.
Qed.

Lemma only_on_time_pos (env : Env) (c : mpv) (st : session) (msg : message) :
  only P (on_time_pos env c st msg).
Proof.
  unfold on_time_pos.
  destruct (Data msg);
    try (apply only_bind; [apply only_slog|intros _; apply only_ret]);
    try apply only_ret.
  apply only_bind.
  { unfold skip_segment. destruct (negb _); [|apply only_ret].
    apply only_bind; [apply only_send|]. intros [e|]; apply only_slog. }
  intros _. apply only_bind; [apply only_read_clock|]. intros now.
  destruct (Sub now _ >? 3 * Second); [|apply only_ret].
  apply only_bind; [apply only_remote_report|]. intros [e|].
  - apply only_bind; [apply only_slog|]. intros _. apply only_ret.
  - apply only_bind; [apply only_slog|]. intros _.
    apply only_bind; [apply only_read_clock|]. intros now'. apply only_ret.
Qed.

Lemma only_add_segments (segments : list (Z * Z)) :
  forall m, only P (add_segments segments m).
Proof.
  induction segments as [|[a b] rest IH]; intros m; cbn [add_segments].
  - apply only_ret.
  - apply only_bind; [apply only_slog|]. intros _. apply IH.
Qed.

Lemma only_add_subtitles (env : Env) (c : mpv) (client : Client)
  (subtitles : list (string * string * string)) :
  only P (add_subtitles env c client subtitles).
Proof.
  induction subtitles as [|[[p t] l] rest IH]; cbn [add_subtitles].
  - apply only_ret.
  - apply only_bind; [apply only_send|]. intros err.
    apply only_bind; [destruct err; apply only_slog|]. intros _. apply IH.
Qed.

Lemma only_on_start_file (env : Env) (c : mpv) (client : Client)
  (items : list Item) (ids : list Z) (st : session) (msg : message) :
  only P (on_start_file env c client items ids st msg).
Proof.
  unfold on_start_file.
  destruct (_ >=? _).
  { apply only_bind; [apply only_slog|]. intros _. apply only_ret. }
  destruct (index_at ids _); [|apply only_ret].
  destruct (index_at items _); [|apply only_ret].
  apply only_bind; [apply only_slog|]. intros _.
  apply only_bind; [apply only_remote_report|]. intros err.
  apply only_bind; [destruct err; apply only_slog|]. intros _.
  apply only_bind; [apply only_slog|]. intros _.
  apply only_bind; [intros w; repeat constructor; apply P_fetched|].
  intros [segments err'].
  apply only_bind; [destruct err'; [apply only_slog|apply only_ret]|].
  intros _.
  apply only_bind;
    [destruct (len segments =? 0); [apply only_slog|apply only_ret]|].
  intros _.
  apply only_bind; [apply only_add_segments|]. intros m.
  apply only_bind; [apply only_add_subtitles|]. intros _. apply only_ret.
Qed.

Lemma only_handle_line (env : Env) (c : mpv) (client : Client)
  (items : list Item) (ids : list Z) (st : session) (l : line) :
  only P (handle_line env c client items ids st l).
Proof.
  destruct l as [|raw|msg]; cbn [handle_line].
  - apply only_ret.
  - apply only_bind; [apply only_slog|]. intros _. apply only_ret.
  - unfold dispatch.
    destruct (String.eqb (Event msg) "property-change").
    { destruct (String.eqb (Name msg) "time-pos");
        [apply only_on_time_pos|apply only_ret]. }
    destruct (String.eqb (Event msg) "start-file");
      [apply only_on_start_file|].
    destruct (String.eqb (Event msg) "seek").
    { apply only_bind; [apply only_slog|]. intros _. apply only_ret. }
    destruct (_ || _).
    + apply only_bind; [apply only_slog|]. intros _.
      apply only_bind; [apply only_remote_report|]. intros err.
      apply only_bind; [destruct err; apply only_slog|]. intros _.
      apply only_ret.
    + apply only_bind; [apply only_slog|]. intros _. apply only_ret.
Qed.

Lemma only_event_loop (env : Env) (c : mpv) (client : Client)
  (items : list Item) (ids : list Z) (lines : list line) :
  forall st, only P (event_loop env c client items ids lines st).
Proof.
  induction lines as [|l rest IH]; intros st; cbn [event_loop].
  - destruct (scannerErr c); apply only_ret.
  - apply only_bind; [apply only_handle_line|].
    intros [st'|r]; [apply IH|apply only_ret].
Qed.

End OnlyEffects.

Lemma logged_only_nothing (tr : list effect) :
  Forall is_logged tr ->
  written tr = [] /\ reports_of tr = [] /\ fetches_of tr = [].
Proof.
  induction 1 as [|e tr He _ IH]; [auto|].
  destruct e; try contradiction. exact IH.
Qed.

Lemma written_nil (tr : list effect) : Forall not_wrote tr -> written tr = [].
Proof.
  induction 1 as [|e tr He _ IH]; [reflexivity|].
  destruct e; try contradiction; exact IH.
Qed.

Lemma reports_nil (tr : list effect) :
  Forall not_reported tr -> reports_of tr = [].
Proof.
  induction 1 as [|e tr He _ IH]; [reflexivity|].
  destruct e; try contradiction; exact IH.
Qed.

Lemma fetches_nil (tr : list effect) :
  Forall not_fetched tr -> fetches_of tr = [].
Proof.
  induction 1 as [|e tr He _ IH]; [reflexivity|].
  destruct e; try contradiction; exact IH.
Qed.

(** ** Turns of the event loop *)

(** X3: lines that are empty or malformed, property changes other than a
    numeric time-pos, and events of a kind the switch does not list change
    nothing: the session and the counters stay as they are and the only
    effects are log lines (no request is written, no report made, no
    segments fetched). *)
Theorem passed_over_lines_change_nothing (env : Env) (c : mpv)
  (client : Client) (items : list Item) (ids : list Z) (st : session)
  (l : line) (w : World) :
  passed_over l = true ->
  exists tr,
    handle_line env c client items ids st l w = (Continue st, w, tr) /\
    Forall is_logged tr /\
    written tr = [] /\ reports_of tr = [] /\ fetches_of tr = [].
Proof.
  intros H.
  assert (Hex : exists tr,
             handle_line env c client items ids st l w = (Continue st, w, tr) /\
             Forall is_logged tr).
  { destruct l as [|raw|msg]; cbn [handle_line passed_over] in *.
    - exists []. split; [reflexivity|constructor].
    - eexists. split; [reflexivity|]. repeat constructor.
    - unfold dispatch.
      destruct (String.eqb (Event msg) "property-change").
      + destruct (String.eqb (Name msg) "time-pos"); cbn [negb orb] in H.
        * unfold on_time_pos.
          destruct (Data msg); try discriminate;
            eexists; (split; [reflexivity|]); repeat constructor.
        * exists []. split; [reflexivity|constructor].
      + destruct (String.eqb (Event msg) "start-file"); [discriminate|].
        destruct (String.eqb (Event msg) "seek"); [discriminate|].
        destruct (String.eqb (Event msg) "end-file"); [discriminate|].
        destruct (String.eqb (Event msg) "shutdown"); [discriminate|].
        eexists. split; [reflexivity|]. repeat constructor. }
  destruct Hex as (tr & E & HL). exists tr.
  split; [exact E|]. split; [exact HL|]. now apply logged_only_nothing.
Qed.

Lemma passed_over_lines_change_nothing_witness :
  exists tr,
    handle_line env_ok (player false []) the_client [itemA] [0]
      (session0 itemA 0) (MsgLine (time_pos (AString "12.5"))) world0
    = (Continue (session0 itemA 0), world0, tr) /\
    Forall is_logged tr /\
    written tr = [] /\ reports_of tr = [] /\ fetches_of tr = [].
Proof.
  apply (passed_over_lines_change_nothing env_ok (player false []) the_client
           [itemA] [0] (session0 itemA 0)
           (MsgLine (time_pos (AString "12.5"))) world0).
  reflexivity.
Defined.

(** What ends the loop in a start-file event: the unknown-id error or the
    panic of an index expression; nothing but a log line has happened. *)
Lemma on_start_file_exit (env : Env) (c : mpv) (client : Client)
  (items : list Item) (ids : list Z) (st : session) (msg : message)
  (w w' : World) (r : outcome) (tr : list effect) :
  on_start_file env c client items ids st msg w = (Exit r, w', tr) ->
  (r = Return (Some (ErrUnknownPlaylistID (PlaylistID msg)))
   \/ r = Panic "index out of range") /\
  w' = w /\ Forall is_logged tr.
Proof.
  destruct (index_at ids (wrap_int (PlaylistID msg - 1))) as [idx|] eqn:Hidx.
  - destruct (index_at items idx) as [it|] eqn:Hit.
    + destruct (on_start_file_resolved env c client items ids st msg w idx it
                  Hidx Hit) as (w2 & t2 & E & _).
      rewrite E. discriminate.
    + unfold on_start_file.
      pose proof (index_at_some_lt _ _ _ Hidx) as Hlt.
      replace (wrap_int (PlaylistID msg - 1) >=? len ids) with false
        by (symmetry; rewrite Z.geb_leb; apply Z.leb_gt; lia).
      rewrite Hidx, Hit. intros H. injection H as <- <- <-.
      split; [now right|]. split; [reflexivity|constructor].
  - unfold on_start_file. rewrite Hidx.
    destruct (wrap_int (PlaylistID msg - 1) >=? len ids);
      intros H; injection H as <- <- <-.
    + split; [now left|]. split; [reflexivity|]. repeat constructor.
    + split; [now right|]. split; [reflexivity|constructor].
Qed.

Lemma handle_line_exit (env : Env) (c : mpv) (client : Client)
  (items : list Item) (ids : list Z) (st : session) (l : line)
  (w w' : World) (r : outcome) (tr : list effect) :
  handle_line env c client items ids st l w = (Exit r, w', tr) ->
  exists msg,
    l = MsgLine msg /\ Event msg = "start-file" /\
    on_start_file env c client items ids st msg w = (Exit r, w', tr).
Proof.
  destruct l as [|raw|msg]; cbn [handle_line]; try discriminate.
  unfold dispatch.
  destruct (String.eqb (Event msg) "property-change") eqn:E1.
  { destruct (String.eqb (Name msg) "time-pos"); [|discriminate].
    destruct (Data msg) as [| | |data| | |] eqn:HD;
      try (unfold on_time_pos; rewrite HD; discriminate).
    destruct (on_time_pos_numeric env c st msg data w HD)
      as (w2 & t2 & E & _).
    cbv zeta in E. rewrite E. discriminate. }
  destruct (String.eqb (Event msg) "start-file") eqn:E2.
  { intros H. exists msg. split; [reflexivity|].
    split; [now apply String.eqb_eq|exact H]. }
  destruct (String.eqb (Event msg) "seek"); [discriminate|].
  destruct (_ || _); [|discriminate].
  unfold bind, slog, emit, ReportPlaybackStopped, remote_report.
  destruct (report_result env (n_remote w)); discriminate.
Qed.

(** X4: the only line that ends the event loop is a start-file event whose
    slot does not resolve; it ends [Play] with the unknown-id error or with
    the panic of an index expression, and before that nothing but a log
    line has happened in the turn.  In particular no failed report, seek,
    subtitle or segment request ends the loop. *)
Theorem only_start_file_ends_loop (env : Env) (c : mpv) (client : Client)
  (items : list Item) (ids : list Z) (st : session) (l : line)
  (w w' : World) (r : outcome) (tr : list effect) :
  handle_line env c client items ids st l w = (Exit r, w', tr) ->
  (exists msg, l = MsgLine msg /\ Event msg = "start-file" /\
     (r = Return (Some (ErrUnknownPlaylistID (PlaylistID msg)))
      \/ r = Panic "index out of range")) /\
  w' = w /\ written tr = [] /\ reports_of tr = [] /\ fetches_of tr = [].
Proof.
  intros H.
  destruct (handle_line_exit env c client items ids st l w w' r tr H)
    as (msg & -> & HE & Hs).
  destruct (on_start_file_exit env c client items ids st msg w w' r tr Hs)
    as (Hr & Hw & HL).
  split; [exists msg; auto|]. split; [exact Hw|].
  now apply logged_only_nothing.
Qed.

Lemma only_start_file_ends_loop_witness :
  (exists msg, MsgLine (start_file 5) = MsgLine msg /\
     Event msg = "start-file" /\
     (Return (Some (ErrUnknownPlaylistID 5))
      = Return (Some (ErrUnknownPlaylistID (PlaylistID msg)))
      \/ Return (Some (ErrUnknownPlaylistID 5)) = Panic "index out of range")) /\
  world0 = world0 /\
  written [Logged Error_ "start-file event for unknown playlist id"] = [] /\
  reports_of [Logged Error_ "start-file event for unknown playlist id"] = [] /\
  fetches_of [Logged Error_ "start-file event for unknown playlist id"] = [].
Proof.
  apply (only_start_file_ends_loop env_ok (player false []) the_client
           [itemA] [0] (session0 itemA 0) (MsgLine (start_file 5))
           world0 world0 (Return (Some (ErrUnknownPlaylistID 5)))
           [Logged Error_ "start-file event for unknown playlist id"]).
  reflexivity.
Defined.

Lemma skip_segment_commands (env : Env) (c : mpv) (st : session) (w : World) :
  let end_ := isInsideSkippableSegment (skippableSegments st) (pos st) in
  commands_of (snd (skip_segment env c st w))
  = if negb (eqb end_ zero) && is_finite end_
    then [Some (JArray [JString "seek"; JFloat end_; JString "absolute"])]
    else [].
Proof.
  cbv zeta. unfold skip_segment, bind.
  destruct (negb (eqb (isInsideSkippableSegment (skippableSegments st) (pos st))
                    zero)); [|reflexivity].
  unfold seekTo. rewrite send_unfold. cbv zeta. cbn [marshal_any andb].
  destruct (is_finite (isInsideSkippableSegment (skippableSegments st) (pos st)));
    [|reflexivity].
  cbn [option_map].
  destruct (conn_Write env (n_write w)); reflexivity.
Qed.

Lemma on_time_pos_written (env : Env) (c : mpv) (st : session)
  (msg : message) (data : float64) (w : World) :
  Data msg = AFloat data ->
  written (snd (on_time_pos env c st msg w))
  = written (snd (skip_segment env c (set_pos st data) w)).
Proof.
  intros HD. unfold on_time_pos. rewrite HD. unfold bind.
  destruct (skip_segment env c (set_pos st data) w) as [[u w1] t1].
  unfold read_clock. cbn [snd].
  destruct (Sub _ _ >? 3 * Second); cbn [ret];
    [|cbn [snd app]; now rewrite app_nil_r].
  unfold ReportPlaybackProgress, remote_report.
  destruct (report_result env _); cbn -[written];
    rewrite !written_app; cbn; now rewrite !app_nil_r.
Qed.

(** X5: a numeric time-pos event writes a seek request exactly when the new
    position is inside a skip segment, that is when the lookup answers an
    end other than 0, and the request is [seek end absolute]; otherwise it
    writes nothing.  (An end that is not a finite number cannot be
    marshalled and is not written.) *)
Theorem time_pos_seeks_to_segment_end (env : Env) (c : mpv) (client : Client)
  (items : list Item) (ids : list Z) (st : session) (msg : message)
  (data : float64) (w : World) :
  Event msg = "property-change" -> Name msg = "time-pos" ->
  Data msg = AFloat data ->
  let end_ := isInsideSkippableSegment (skippableSegments st) data in
  commands_of (snd (handle_line env c client items ids st (MsgLine msg) w))
  = if negb (eqb end_ zero) && is_finite end_
    then [Some (JArray [JString "seek"; JFloat end_; JString "absolute"])]
    else [].
Proof.
  intros HE HN HD. cbv zeta.
  rewrite (handle_line_time_pos env c client items ids st msg HE HN).
  unfold commands_of. rewrite (on_time_pos_written env c st msg data w HD).
  exact (skip_segment_commands env c (set_pos st data) w).
Qed.

Lemma time_pos_seeks_to_segment_end_witness :
  commands_of
    (snd (handle_line env_ok (player false []) the_client [itemA] [0]
            {| item := itemA; pos := of_int 0; lastProgressUpdate := 0;
               skippableSegments := [(of_int 10, of_int 20)] |}
            (MsgLine (time_pos (AFloat (of_int 16)))) world0))
  = [Some (JArray [JString "seek"; JFloat (of_int 20); JString "absolute"])].
Proof.
  exact (time_pos_seeks_to_segment_end env_ok (player false []) the_client
           [itemA] [0]
           {| item := itemA; pos := of_int 0; lastProgressUpdate := 0;
              skippableSegments := [(of_int 10, of_int 20)] |}
           (time_pos (AFloat (of_int 16))) (of_int 16) world0
           eq_refl eq_refl eq_refl).
Defined.

(** X6: a seek event sets the debounce timestamp to the zero time and does
    nothing else, so the next numeric time-pos event makes a progress
    report at once, however little time has passed (the clock being past
    1970). *)
Theorem seek_forces_next_report (env : Env) (c : mpv) (client : Client)
  (items : list Item) (ids : list Z) (st : session) (msg msg2 : message)
  (data : float64) (w : World) :
  Event msg = "seek" ->
  Event msg2 = "property-change" -> Name msg2 = "time-pos" ->
  Data msg2 = AFloat data ->
  0 <= time_Now env (n_clock w) ->
  exists st1 tr,
    handle_line env c client items ids st (MsgLine msg) w
    = (Continue st1, w, tr) /\
    Forall is_logged tr /\
    item st1 = item st /\ pos st1 = pos st /\
    skippableSegments st1 = skippableSegments st /\
    lastProgressUpdate st1 = zeroTime /\
    reports_of (snd (handle_line env c client items ids st1 (MsgLine msg2) w))
    = [(Progress, item st, secondsToTicks data,
        report_result env (n_remote w))].
Proof.
  intros HE HE2 HN2 HD2 Hclock.
  destruct (seek_resets_debounce env c client items ids st msg w HE)
    as [E Hel].
  exists (set_lastProgressUpdate st zeroTime), [Logged Info "received"].
  split; [exact E|]. split; [repeat constructor|].
  repeat (split; [reflexivity|]).
  rewrite (handle_line_time_pos env c client items ids _ msg2 HE2 HN2).
  destruct (on_time_pos_numeric env c (set_lastProgressUpdate st zeroTime)
              msg2 data w HD2) as (w2 & t2 & E2 & HR & _).
  cbv zeta in E2, HR. rewrite E2. cbn [snd]. rewrite HR.
  now rewrite (Hel _ Hclock).
Qed.

Lemma seek_forces_next_report_witness :
  exists st1 tr,
    handle_line env_ok (player false []) the_client [itemA] [0]
      (session0 itemA 0) (MsgLine (event "seek")) world0
    = (Continue st1, world0, tr) /\
    Forall is_logged tr /\
    item st1 = itemA /\ pos st1 = of_int 0 /\
    skippableSegments st1 = [] /\
    lastProgressUpdate st1 = zeroTime /\
    reports_of (snd (handle_line env_ok (player false []) the_client [itemA]
                       [0] st1 (MsgLine (time_pos (AFloat (of_int 7))))
                       world0))
    = [(Progress, itemA, secondsToTicks (of_int 7), true)].
Proof.
  apply (seek_forces_next_report env_ok (player false []) the_client
           [itemA] [0] (session0 itemA 0) (event "seek")
           (time_pos (AFloat (of_int 7))) (of_int 7) world0);
    first [reflexivity | cbn; discriminate].
Defined.

(** ** The slot map after the construction *)

Lemma range_up_nth (lo hi : Z) (j : nat) :
  (j < Z.to_nat (hi - lo))%nat ->
  nth_error (range_up lo hi) j = Some (lo + Z.of_nat j).
Proof.
  intros H. unfold range_up. rewrite nth_error_map, nth_error_seq.
  apply Nat.ltb_lt in H. rewrite H. reflexivity.
Qed.

Lemma range_down_nth (hi : Z) (j : nat) :
  (j < Z.to_nat (hi + 1))%nat ->
  nth_error (range_down hi) j = Some (hi - Z.of_nat j).
Proof.
  intros H. unfold range_down. rewrite nth_error_map, nth_error_seq.
  apply Nat.ltb_lt in H. rewrite H. reflexivity.
Qed.

Lemma slot_map_nth (n s k : Z) :
  0 <= s < n -> 1 <= k <= n ->
  index_at (map snd (load_plan n s)) (k - 1) = Some (slot_index n s k) /\
  0 <= slot_index n s k < n.
Proof.
  intros Hs Hk. split.
  - unfold index_at, load_plan, slot_index.
    replace (k - 1 <? 0) with false by (symmetry; apply Z.ltb_ge; lia).
    cbn [map snd]. rewrite map_app, !map_map. cbn [snd]. rewrite !map_id.
    destruct (Z.to_nat (k - 1)) as [|j] eqn:Ej.
    + cbn [nth_error].
      replace (k <=? n - s) with true by (symmetry; apply Z.leb_le; lia).
      f_equal. lia.
    + cbn [nth_error]. rewrite nth_error_app.
      assert (Lup : List.length (range_up (s + 1) n) = Z.to_nat (n - (s + 1))).
      { unfold range_up. now rewrite length_map, length_seq. }
      rewrite Lup.
      destruct (Nat.ltb j (Z.to_nat (n - (s + 1)))) eqn:Hj.
      * apply Nat.ltb_lt in Hj. rewrite range_up_nth by exact Hj.
        replace (k <=? n - s) with true by (symmetry; apply Z.leb_le; lia).
        f_equal. lia.
      * apply Nat.ltb_ge in Hj. rewrite range_down_nth by lia.
        replace (k <=? n - s) with false by (symmetry; apply Z.leb_gt; lia).
        f_equal. lia.
  - unfold slot_index. destruct (k <=? n - s) eqn:E.
    + apply Z.leb_le in E. lia.
    + apply Z.leb_gt in E. lia.
Qed.

Lemma load_plan_indices_in_range (n s : Z) :
  0 <= s < n ->
  Forall (fun i => 0 <= i < n) (map snd (load_plan n s)) /\
  len (map snd (load_plan n s)) = n.
Proof.
  intros Hs. unfold load_plan. cbn [map snd].
  rewrite map_app, !map_map. cbn [snd]. rewrite !map_id. split.
  - constructor; [lia|]. apply Forall_app. split; apply Forall_forall;
      intros i Hi.
    + apply range_up_bounds in Hi. lia.
    + apply range_down_bounds in Hi. lia.
  - unfold len, range_up, range_down. cbn [List.length].
    rewrite length_app, !length_map, !length_seq. lia.
Qed.

(** X8: with [n] items and a start index [s] within them, once the
    load-replace request is written, the slot map that [Play] builds sends
    slot [k], for [1 <= k <= n], to the item index [s + k - 1] when
    [k <= n - s] (the start item and the ones after it) and to [n - k]
    otherwise (the ones before it, nearest first); every index of the map
    is within the items. *)
Theorem slot_map_closed_form (env : Env) (c : mpv) (client : Client)
  (items : list Item) (s k : Z) (w : World) :
  0 <= s < len items ->
  conn_Write env (n_write w) = true ->
  1 <= k <= len items ->
  exists ids w' tr,
    load_playlist env c client items s w = (inr ids, w', tr) /\
    len ids = len items /\
    index_at ids (k - 1)
    = Some (if k <=? len items - s then s + k - 1 else len items - k) /\
    Forall (fun i => 0 <= i < len items) ids.
Proof.
  intros Hs Hw Hk.
  destruct (load_playlist_loads env c client items s w Hs Hw)
    as (w' & tr & E & _).
  destruct (load_plan_indices_in_range (len items) s Hs) as [HF HL].
  destruct (slot_map_nth (len items) s k Hs Hk) as [Hn _].
  exists (map snd (load_plan (len items) s)), w', tr.
  split; [exact E|]. split; [exact HL|]. split; [exact Hn|exact HF].
Qed.

Lemma slot_map_closed_form_witness :
  exists ids w' tr,
    load_playlist env_ok (player true []) the_client
      [itemA; itemB; itemC; itemD] 1 world0 = (inr ids, w', tr) /\
    len ids = 4 /\
    index_at ids (4 - 1) = Some 0 /\
    Forall (fun i => 0 <= i < 4) ids.
Proof.
  apply (slot_map_closed_form env_ok (player true []) the_client
           [itemA; itemB; itemC; itemD] 1 4 world0).
  - cbn. lia.
  - reflexivity.
  - cbn. lia.
Defined.

Lemma wrap_int_small (n : Z) :
  minInt64 <= n <= maxInt64 -> wrap_int n = n.
Proof.
  intros H. unfold wrap_int, minInt64, maxInt64 in *.
  rewrite Z.mod_small; lia.
Qed.

(** A start-file event for a slot within a slot map whose entries are item
    indices resolves to the item at the entry of the slot. *)
Lemma on_start_file_known_slot (env : Env) (c : mpv) (client : Client)
  (items : list Item) (ids : list Z) (st : session) (msg : message)
  (w : World) :
  Forall (fun i => 0 <= i < len items) ids ->
  1 <= PlaylistID msg <= len ids -> PlaylistID msg <= maxInt64 ->
  exists idx it st' w' tr,
    index_at ids (PlaylistID msg - 1) = Some idx /\
    index_at items idx = Some it /\
    on_start_file env c client items ids st msg w = (Continue st', w', tr) /\
    item st' = it.
Proof.
  intros HF Hk Hmax.
  assert (Hw : wrap_int (PlaylistID msg - 1) = PlaylistID msg - 1).
  { apply wrap_int_small. unfold minInt64, maxInt64 in *. lia. }
  destruct (index_at_in_range ids (PlaylistID msg - 1)) as [idx Hidx]; [lia|].
  assert (Hin : In idx ids).
  { unfold index_at in Hidx.
    destruct (PlaylistID msg - 1 <? 0); [discriminate|].
    now apply nth_error_In in Hidx. }
  rewrite Forall_forall in HF. specialize (HF idx Hin).
  destruct (index_at_in_range items idx HF) as [it Hit].
  rewrite <- Hw in Hidx.
  destruct (on_start_file_resolved env c client items ids st msg w idx it
              Hidx Hit) as (w' & tr & E & _).
  rewrite Hw in Hidx.
  eexists idx, it, _, w', tr. split; [exact Hidx|]. split; [exact Hit|].
  split; [exact E|reflexivity].
Qed.

(** X9: after the construction a start-file event for any slot [k] with
    [1 <= k <= n] resolves: it neither ends [Play] nor panics, and the
    current item becomes the item the k-th load command loaded, that is
    the item at index [s + k - 1] or [n - k]. *)
Theorem known_slots_resolve (env : Env) (c : mpv) (client : Client)
  (items : list Item) (s k : Z) (w : World) (st : session) (w2 : World) :
  0 <= s < len items ->
  conn_Write env (n_write w) = true ->
  1 <= k <= len items -> k <= maxInt64 ->
  exists ids w' tr st' w3 t3,
    load_playlist env c client items s w = (inr ids, w', tr) /\
    handle_line env c client items ids st (MsgLine (start_file k)) w2
    = (Continue st', w3, t3) /\
    index_at items (slot_index (len items) s k) = Some (item st').
Proof.
  intros Hs Hw Hk Hmax.
  destruct (load_playlist_loads env c client items s w Hs Hw)
    as (w' & tr & E & _).
  destruct (load_plan_indices_in_range (len items) s Hs) as [HF HL].
  destruct (slot_map_nth (len items) s k Hs Hk) as [Hn _].
  destruct (on_start_file_known_slot env c client items
              (map snd (load_plan (len items) s)) st
              (start_file k) w2 HF)
    as (idx & it & st' & w3 & t3 & Hidx & Hit & E3 & Hitem).
  { cbn [PlaylistID start_file]. rewrite HL. exact Hk. }
  { exact Hmax. }
  cbn [PlaylistID start_file] in Hidx. rewrite Hn in Hidx.
  injection Hidx as <-.
  exists (map snd (load_plan (len items) s)), w', tr, st', w3, t3.
  split; [exact E|]. split; [exact E3|]. now rewrite Hitem.
Qed.

Lemma known_slots_resolve_witness :
  exists ids w' tr st' w3 t3,
    load_playlist env_ok (player false []) the_client
      [itemA; itemB; itemC; itemD] 2 world0 = (inr ids, w', tr) /\
    handle_line env_ok (player false []) the_client
      [itemA; itemB; itemC; itemD] ids (session0 itemC 0)
      (MsgLine (start_file 3)) (world_at 1)
    = (Continue st', w3, t3) /\
    index_at [itemA; itemB; itemC; itemD] (slot_index 4 2 3) = Some (item st').
Proof.
  apply (known_slots_resolve env_ok (player false []) the_client
           [itemA; itemB; itemC; itemD] 2 3 world0 (session0 itemC 0)
           (world_at 1)).
  - cbn. lia.
  - reflexivity.
  - cbn. lia.
  - cbn. discriminate.
Defined.

(** ** What a start-file event sets going *)

Lemma commands_of_app (t1 t2 : list effect) :
  commands_of (t1 ++ t2) = (commands_of t1 ++ commands_of t2)%list.
Proof. unfold commands_of. now rewrite written_app, map_app. Qed.

Lemma fetches_of_app (t1 t2 : list effect) :
  fetches_of (t1 ++ t2) = (fetches_of t1 ++ fetches_of t2)%list.
Proof. apply flat_map_app. Qed.

Lemma commands_of_skip (e : effect) (tr : list effect) :
  not_wrote e -> commands_of (e :: tr) = commands_of tr.
Proof. destruct e; intros H; try contradiction; reflexivity. Qed.

Lemma fetches_of_skip (e : effect) (tr : list effect) :
  not_fetched e -> fetches_of (e :: tr) = fetches_of tr.
Proof. destruct e; intros H; try contradiction; reflexivity. Qed.

Lemma add_subtitles_commands (env : Env) (c : mpv) (client : Client)
  (subtitles : list (string * string * string)) :
  forall w,
    commands_of (snd (add_subtitles env c client subtitles w))
    = map (sub_add client) subtitles.
Proof.
  induction subtitles as [|[[p t] l] rest IH]; intros w; [reflexivity|].
  cbn [add_subtitles map sub_add]. unfold bind, addSubtitle.
  rewrite send_unfold. cbv zeta. cbn [marshal_any option_map].
  destruct (conn_Write env (n_write w)); cbn [slog emit];
    match goal with
    | |- context [add_subtitles env c client rest ?w0] =>
        specialize (IH w0);
        destruct (add_subtitles env c client rest w0) as [[u w3] te]
    end;
    cbn [snd] in *; rewrite !commands_of_app, IH; reflexivity.
Qed.

Lemma on_start_file_commands (env : Env) (c : mpv) (client : Client)
  (items : list Item) (ids : list Z) (st : session) (msg : message)
  (w : World) (idx : Z) (it : Item) :
  index_at ids (wrap_int (PlaylistID msg - 1)) = Some idx ->
  index_at items idx = Some it ->
  commands_of (snd (on_start_file env c client items ids st msg w))
  = map (sub_add client) (GetExternalSubtitleStreams env it) /\
  fetches_of (snd (on_start_file env c client items ids st msg w)) = [it].
Proof.
  intros Hidx Hit. unfold on_start_file.
  pose proof (index_at_some_lt _ _ _ Hidx) as Hlt.
  replace (wrap_int (PlaylistID msg - 1) >=? len ids) with false
    by (symmetry; rewrite Z.geb_leb; apply Z.leb_gt; lia).
  rewrite Hidx, Hit.
  unfold bind, slog, emit, ReportPlaybackStart, remote_report,
    GetMediaSegments.
  cbn -[secondsToTicks install add_segments add_subtitles len].
  destruct (report_result env (n_remote w));
    cbn -[secondsToTicks install add_segments add_subtitles len];
    destruct (media_segments env (S (n_remote w)) it) as [segments err];
    destruct err; destruct (len segments =? 0);
    cbn -[secondsToTicks install add_segments add_subtitles len];
    match goal with
    | |- context [add_segments ?s ?m ?w0] =>
        pose proof (only_add_segments is_logged (fun _ _ => I) s m w0) as HD;
        destruct (add_segments s m w0) as [[m' w2] td]
    end;
    cbn [snd] in HD; apply logged_only_nothing in HD;
    destruct HD as (WD & _ & FD);
    cbn [set_skippableSegments item pos lastProgressUpdate skippableSegments];
    match goal with
    | |- context [add_subtitles ?e ?c0 ?cl ?subs ?w0] =>
        pose proof (add_subtitles_commands e c0 cl subs w0) as CE;
        pose proof (only_add_subtitles not_fetched (fun _ _ => I)
                      (fun _ _ => I) e c0 cl subs w0) as FE;
        destruct (add_subtitles e c0 cl subs w0) as [[u w3] te]
    end;
    cbn [snd] in CE, FE; apply fetches_nil in FE;
    cbn [snd app];
    (split;
     [rewrite !commands_of_skip by exact I;
      rewrite ?commands_of_app, ?CE; unfold commands_of; rewrite ?WD;
      cbn [map app written flat_map]; now rewrite ?app_nil_r
     |rewrite !fetches_of_skip by exact I;
      change (FetchedSegments it :: ?l) with ([FetchedSegments it] ++ l)%list;
      rewrite fetches_of_app;
      change (fetches_of [FetchedSegments it]) with [it];
      repeat (rewrite fetches_of_skip by exact I);
      rewrite ?fetches_of_app, ?FD, ?FE; reflexivity]).
Qed.

(** X7: a start-file event whose slot resolves to an item fetches the skip
    segments of that item, once, and then writes one sub-add request for
    each external subtitle of the item, in order, with the url made of the
    host and the path; this does not depend on which reports, fetches or
    earlier sub-add writes fail. *)
Theorem start_file_fetches_and_attaches (env : Env) (c : mpv)
  (client : Client) (items : list Item) (ids : list Z) (st : session)
  (msg : message) (w : World) (idx : Z) (it : Item) :
  Event msg = "start-file" ->
  index_at ids (wrap_int (PlaylistID msg - 1)) = Some idx ->
  index_at items idx = Some it ->
  exists st' w' tr,
    handle_line env c client items ids st (MsgLine msg) w
    = (Continue st', w', tr) /\
    item st' = it /\
    fetches_of tr = [it] /\
    commands_of tr = map (sub_add client) (GetExternalSubtitleStreams env it).
Proof.
  intros HE Hidx Hit.
  rewrite (handle_line_start_file env c client items ids st msg HE).
  destruct (on_start_file_commands env c client items ids st msg w idx it
              Hidx Hit) as [HC HF].
  destruct (on_start_file_resolved env c client items ids st msg w idx it
              Hidx Hit) as (w' & tr & E & _).
  rewrite E in HC, HF. cbn [snd] in HC, HF.
  eexists. exists w', tr. split; [exact E|]. split; [reflexivity|].
  split; [exact HF|exact HC].
Qed.

Lemma start_file_fetches_and_attaches_witness :
  exists st' w' tr,
    handle_line env_failing_reports (player false []) the_client
      [itemA; itemB] [1; 0] (session0 itemB 0) (MsgLine (start_file 2)) world0
    = (Continue st', w', tr) /\
    item st' = itemA /\
    fetches_of tr = [itemA] /\
    commands_of tr
    = map (sub_add the_client)
        (GetExternalSubtitleStreams env_failing_reports itemA).
Proof.
  apply (start_file_fetches_and_attaches env_failing_reports
           (player false []) the_client [itemA; itemB] [1; 0]
           (session0 itemB 0) (start_file 2) world0 0 itemA);
    reflexivity.
Defined.

(** ** [Play] from end to end *)

Lemma handle_line_continues (env : Env) (c : mpv) (client : Client)
  (items : list Item) (ids : list Z) (st : session) (l : line) (w : World) :
  Forall (fun i => 0 <= i < len items) ids ->
  slot_known (len ids) l = true ->
  exists st' w' tr,
    handle_line env c client items ids st l w = (Continue st', w', tr).
Proof.
  intros HF Hk.
  destruct (handle_line env c client items ids st l w) as [[n w'] tr] eqn:E.
  destruct n as [st'|r]; [now exists st', w', tr|].
  destruct (handle_line_exit env c client items ids st l w w' r tr E)
    as (msg & -> & HE & Hs).
  cbn [slot_known] in Hk. rewrite HE in Hk. cbn in Hk.
  apply andb_prop in Hk as [Hk Hmax]. apply andb_prop in Hk as [H1 H2].
  apply Z.leb_le in H1, H2, Hmax.
  destruct (on_start_file_known_slot env c client items ids st msg w HF)
    as (idx & it & st' & w2 & t2 & _ & _ & E2 & _); [lia|exact Hmax|].
  rewrite E2 in Hs. discriminate.
Qed.

Lemma event_loop_runs_out (env : Env) (c : mpv) (client : Client)
  (items : list Item) (ids : list Z) (lines : list line) :
  Forall (fun i => 0 <= i < len items) ids ->
  forallb (slot_known (len ids)) lines = true ->
  forall st w,
    fst (fst (event_loop env c client items ids lines st w))
    = Return (if scannerErr c then Some ErrRead else None).
Proof.
  intros HF. induction lines as [|l rest IH]; intros Hall st w.
  - cbn. now destruct (scannerErr c).
  - cbn [forallb] in Hall. apply andb_prop in Hall as [Hl Hrest].
    cbn [event_loop]. unfold bind.
    destruct (handle_line_continues env c client items ids st l w HF Hl)
      as (st' & w' & tr & E).
    rewrite E. specialize (IH Hrest st' w').
    destruct (event_loop env c client items ids rest st' w') as [[r w2] t2].
    exact IH.
Qed.

Lemma observeProperty_written (env : Env) (c : mpv) (name : string)
  (w : World) :
  conn_Write env (n_write w) = true ->
  exists t1,
    observeProperty env c name w
    = (None,
       {| n_rand := S (n_rand w); n_write := S (n_write w);
          n_clock := n_clock w; n_remote := n_remote w |}, t1).
Proof.
  intros Hw. unfold observeProperty. rewrite send_unfold. cbv zeta.
  cbn [marshal_any option_map]. rewrite Hw. eexists. reflexivity.
Qed.

(** X10: when the first two requests (observe and load-replace) are
    written, the start index is within the items and every start-file
    event of the stream names a slot between 1 and the number of items,
    [Play] runs to the end of the stream and returns nil, or the read error
    if the scanner met one: no failed report, segment fetch, seek, append,
    prepend or subtitle request ends it, and no line makes it panic. *)
Theorem Play_runs_to_end_of_stream (env : Env) (c : mpv) (client : Client)
  (items : list Item) (index : Z) (w : World) :
  conn_Write env (n_write w) = true ->
  conn_Write env (S (n_write w)) = true ->
  0 <= index < len items ->
  forallb (slot_known (len items)) (scanner c) = true ->
  fst (fst (Play env (Some c) client items index w))
  = Return (if scannerErr c then Some ErrRead else None).
Proof.
  intros Hw1 Hw2 Hs Hall.
  destruct (observeProperty_written env c "time-pos" w Hw1) as [t1 E1].
  destruct (load_playlist_loads env c client items index
              {| n_rand := S (n_rand w); n_write := S (n_write w);
                 n_clock := n_clock w; n_remote := n_remote w |} Hs Hw2)
    as (w2 & t2 & E2 & _).
  destruct (index_at_in_range items index Hs) as [it Hit].
  rewrite (Play_enters_event_loop env c client items index w _ w2 t1 t2 _ it
             E1 E2 Hit).
  destruct (load_plan_indices_in_range (len items) index Hs) as [HF HL].
  rewrite <- HL in Hall.
  pose proof (event_loop_runs_out env c client items _ (scanner c) HF Hall
                (session0 it (time_Now env (n_clock w2)))
                {| n_rand := n_rand w2; n_write := n_write w2;
                   n_clock := S (n_clock w2); n_remote := n_remote w2 |})
    as H.
  destruct (event_loop env c client items _ (scanner c) _ _) as [[r w3] t3].
  exact H.
Qed.

Lemma Play_runs_to_end_of_stream_witness :
  fst (fst (Play env_failing_reports
              (Some (player true [MsgLine (start_file 1);
                                  MsgLine (time_pos (AFloat (of_int 16)));
                                  BadLine "{"; MsgLine (start_file 2);
                                  MsgLine (event "shutdown")]))
              the_client [itemA; itemB] 1 world0))
  = Return None.
Proof.
  apply (Play_runs_to_end_of_stream env_failing_reports
           (player true [MsgLine (start_file 1);
                         MsgLine (time_pos (AFloat (of_int 16)));
                         BadLine "{"; MsgLine (start_file 2);
                         MsgLine (event "shutdown")])
           the_client [itemA; itemB] 1 world0).
  - reflexivity.
  - reflexivity.
  - cbn. lia.
  - reflexivity.
Defined.

(** X11: once [createMpv] has succeeded, [Play] closes the player on every
    way out, also at a panic, as the last thing it does and only once; when
    [createMpv] fails, [Play] returns that failure and does nothing. *)
Theorem Play_closes_player (env : Env) (c : mpv) (client : Client)
  (items : list Item) (index : Z) (w : World) :
  (exists t,
     snd (Play env (Some c) client items index w) = (t ++ [Closed])%list /\
     Forall not_closed t) /\
  Play env None client items index w = (Return (Some ErrCreate), w, []).
Proof.
  split; [|reflexivity].
  unfold Play.
  match goal with
  | |- context [bind ?m _ w] => set (body := m)
  end.
  assert (HB : only not_closed body).
  { subst body.
    apply only_bind; [apply only_send; intros; exact I|].
    intros [e|]; [apply only_ret|].
    apply only_bind; [apply only_load_playlist; intros; exact I|].
    intros [out|ids]; [apply only_ret|].
    apply only_bind; [apply only_read_clock|]. intros now.
    destruct (index_at items index); [|apply only_ret].
    apply only_event_loop; intros; exact I. }
  unfold bind. specialize (HB w). destruct (body w) as [[r w1] t1].
  cbn [snd close emit ret app] in *. exists t1.
  split; [reflexivity|exact HB].
Qed.

Lemma index_at_out_of_range {A} (l : list A) (i : Z) :
  i < 0 \/ len l <= i -> index_at l i = None.
Proof.
  intros H. unfold index_at, len in *.
  destruct (i <? 0) eqn:E; [reflexivity|]. apply Z.ltb_ge in E.
  apply nth_error_None. lia.
Qed.

(** X12: with the player created, a start index outside the items
    (negative, or not below their number, as with an empty list) never gets
    a file loaded.  The one request [Play] attempts is the observe request:
    when its write succeeds [Play] panics at [items[index]], and when it
    fails [Play] returns the observe error.  Either way no load request is
    written, nothing is reported, and the player is closed last. *)
Theorem Play_start_index_out_of_range (env : Env) (c : mpv) (client : Client)
  (items : list Item) (index : Z) (w : World) :
  index < 0 \/ len items <= index ->
  fst (fst (Play env (Some c) client items index w))
  = (if conn_Write env (n_write w)
     then Panic "index out of range"
     else Return (Some (ErrObserve ErrWrite))) /\
  commands_of (snd (Play env (Some c) client items index w))
  = [Some (JArray [JString "observe_property"; JInt 1; JString "time-pos"])] /\
  loads_written (snd (Play env (Some c) client items index w)) = [] /\
  reports_of (snd (Play env (Some c) client items index w)) = [] /\
  exists t, snd (Play env (Some c) client items index w) = (t ++ [Closed])%list.
Proof.
  intros Hout.
  pose proof (index_at_out_of_range items index Hout) as Hnone.
  unfold Play, bind, observeProperty. rewrite send_unfold. cbv zeta.
  cbn [marshal_any option_map].
  destruct (conn_Write env (n_write w)).
  - unfold load_playlist. rewrite Hnone. cbn -[Z.modulo].
    repeat split. eexists [_; _]. reflexivity.
  - cbn -[Z.modulo]. repeat split. eexists [_]. reflexivity.
Qed.

Lemma Play_start_index_out_of_range_witness :
  fst (fst (Play (env_writes (fun _ => false)) (Some (player false []))
              the_client [itemA] 1 world0))
  = Return (Some (ErrObserve ErrWrite)) /\
  commands_of (snd (Play (env_writes (fun _ => false))
                      (Some (player false [])) the_client [itemA] 1 world0))
  = [Some (JArray [JString "observe_property"; JInt 1; JString "time-pos"])] /\
  loads_written (snd (Play (env_writes (fun _ => false))
                        (Some (player false [])) the_client [itemA] 1 world0))
  = [] /\
  reports_of (snd (Play (env_writes (fun _ => false))
                     (Some (player false [])) the_client [itemA] 1 world0))
  = [] /\
  exists t,
    snd (Play (env_writes (fun _ => false)) (Some (player false []))
           the_client [itemA] 1 world0)
    = (t ++ [Closed])%list.
Proof.
  apply (Play_start_index_out_of_range (env_writes (fun _ => false))
           (player false []) the_client [itemA] 1 world0).
  right. cbn. lia.
Defined.

(** X13: the first two writes are the fatal ones.  When the observe
    request cannot be written, [Play] returns the observe error and writes
    nothing more; when the load-replace request cannot be written, [Play]
    returns the play-file error and attempts no append or prepend.  In both
    cases the event loop is not entered (nothing is reported). *)
Theorem Play_first_writes_are_fatal (env : Env) (c : mpv) (client : Client)
  (items : list Item) (index : Z) (w : World) :
  (conn_Write env (n_write w) = false ->
   fst (fst (Play env (Some c) client items index w))
   = Return (Some (ErrObserve ErrWrite)) /\
   List.length (written (snd (Play env (Some c) client items index w)))
   = 1%nat /\
   loads_written (snd (Play env (Some c) client items index w)) = [] /\
   reports_of (snd (Play env (Some c) client items index w)) = []) /\
  (conn_Write env (n_write w) = true ->
   conn_Write env (S (n_write w)) = false ->
   0 <= index < len items ->
   fst (fst (Play env (Some c) client items index w))
   = Return (Some (ErrPlayFile ErrWrite)) /\
   List.length (written (snd (Play env (Some c) client items index w)))
   = 2%nat /\
   List.length (loads_written (snd (Play env (Some c) client items index w)))
   = 1%nat /\
   reports_of (snd (Play env (Some c) client items index w)) = []).
Proof.
  split.
  - intros Hw. unfold Play, bind, observeProperty. rewrite send_unfold.
    cbv zeta. cbn [marshal_any option_map]. rewrite Hw.
    cbn -[Z.modulo]. repeat split.
  - intros Hw1 Hw2 Hs.
    destruct (index_at_in_range items index Hs) as [it Hit].
    unfold Play, bind, observeProperty. rewrite send_unfold. cbv zeta.
    cbn [marshal_any option_map]. rewrite Hw1.
    unfold load_playlist. rewrite Hit. unfold bind, playFile.
    rewrite send_unfold. cbv zeta. cbn [n_write]. rewrite Hw2.
    destruct (oldMpv c); cbn -[Z.modulo FormatFloat_f6 ticksToSeconds];
      repeat split.
Qed.

Lemma Play_first_writes_are_fatal_witness :
  (fst (fst (Play (env_writes (fun _ => false)) (Some (player false []))
               the_client [itemA; itemB] 0 world0))
   = Return (Some (ErrObserve ErrWrite)) /\
   List.length (written (snd (Play (env_writes (fun _ => false))
                                (Some (player false []))
                                the_client [itemA; itemB] 0 world0)))
   = 1%nat /\
   loads_written (snd (Play (env_writes (fun _ => false))
                         (Some (player false []))
                         the_client [itemA; itemB] 0 world0)) = [] /\
   reports_of (snd (Play (env_writes (fun _ => false))
                      (Some (player false []))
                      the_client [itemA; itemB] 0 world0)) = []) /\
  (fst (fst (Play (env_writes (Nat.eqb 0)) (Some (player false []))
               the_client [itemA; itemB] 0 world0))
   = Return (Some (ErrPlayFile ErrWrite)) /\
   List.length (written (snd (Play (env_writes (Nat.eqb 0))
                                (Some (player false []))
                                the_client [itemA; itemB] 0 world0)))
   = 2%nat /\
   List.length (loads_written (snd (Play (env_writes (Nat.eqb 0))
                                      (Some (player false []))
                                      the_client [itemA; itemB] 0 world0)))
   = 1%nat /\
   reports_of (snd (Play (env_writes (Nat.eqb 0)) (Some (player false []))
                      the_client [itemA; itemB] 0 world0)) = []).
Proof.
  split.
  - apply (proj1 (Play_first_writes_are_fatal (env_writes (fun _ => false))
                    (player false []) the_client [itemA; itemB] 0 world0)).
    reflexivity.
  - apply (proj2 (Play_first_writes_are_fatal (env_writes (Nat.eqb 0))
                    (player false []) the_client [itemA; itemB] 0 world0)).
    + reflexivity.
    + reflexivity.
    + cbn. lia.
Defined.

(** X18: on an old player, with the start index within the items and the
    load-replace request written, the requests written are load-replace
    for the start item and load-append for every later item, in order, and
    no insert request; all the items are recorded in the slot map all the
    same. *)
Theorem old_player_loads (env : Env) (c : mpv) (client : Client)
  (items : list Item) (s : Z) (w : World) :
  oldMpv c = true ->
  0 <= s < len items ->
  conn_Write env (n_write w) = true ->
  exists ids w' tr,
    load_playlist env c client items s w = (inr ids, w', tr) /\
    len ids = len items /\
    loads_written tr
    = flat_map (load_for env client items)
        ((Replace, s) :: map (pair Append) (range_up (s + 1) (len items))) /\
    len (loads_written tr) = len items - s.
Proof.
  intros Hold Hs Hw.
  destruct (load_playlist_loads env c client items s w Hs Hw)
    as (w' & tr & E & HT).
  destruct (slot_map_and_loads_lengths env c client items s w Hs Hw)
    as (w2 & tr2 & ids2 & E2 & HL & HN).
  rewrite E in E2. injection E2 as <- <- <-.
  rewrite Hold in HT, HN. rewrite app_nil_r in HT.
  eexists. exists w', tr. split; [exact E|]. split; [exact HL|].
  split; [exact HT|exact HN].
Qed.

Lemma old_player_loads_witness :
  exists ids w' tr,
    load_playlist env_ok (player true []) the_client
      [itemA; itemB; itemC] 1 world0 = (inr ids, w', tr) /\
    len ids = 3 /\
    loads_written tr
    = flat_map (load_for env_ok the_client [itemA; itemB; itemC])
        ((Replace, 1) :: map (pair Append) (range_up (1 + 1) 3)) /\
    len (loads_written tr) = 3 - 1.
Proof.
  apply (old_player_loads env_ok (player true []) the_client
           [itemA; itemB; itemC] 1 world0).
  - reflexivity.
  - cbn. lia.
  - reflexivity.
Defined.

(** ** The command encoder by version *)

(** X17: the load requests on the wire.  A current player is sent
    [loadfile url mode 0 options]; an old one is sent the replace and the
    append requests without the index 0 and no insert request at all.  The
    options carry the title, and for replace the start offset as a decimal
    string with six digits after the point. *)
Theorem load_requests_by_version (env : Env) (c : mpv) (url title : string)
  (start : float64) (w : World) :
  let index := if oldMpv c then [] else [JInt 0] in
  commands_of (snd (playFile env c url title start w))
  = [Some (JArray ([JString "loadfile"; JString url; JString "replace"]
                   ++ index
                   ++ [JObject [("force-media-title", JString title);
                                ("start", JString (FormatFloat_f6 start))]]))]
  /\
  commands_of (snd (appendFile env c url title w))
  = [Some (JArray ([JString "loadfile"; JString url; JString "append"]
                   ++ index
                   ++ [JObject [("force-media-title", JString title)]]))] /\
  commands_of (snd (prependFile env c url title w))
  = (if oldMpv c then []
     else [Some (JArray [JString "loadfile"; JString url; JString "insert-at";
                         JInt 0;
                         JObject [("force-media-title", JString title)]])]) /\
  (oldMpv c = true ->
   prependFile env c url title w
   = (None, w, [Logged Warn "mpv version is < 0.38, refusing to prepend file"])).
Proof.
  cbv zeta. unfold playFile, appendFile, prependFile.
  destruct (oldMpv c); rewrite ?send_unfold; cbv zeta;
    cbn [negb app marshal_any option_map];
    destruct (conn_Write env (n_write w)); repeat split;
    intros; discriminate.
Qed.

Lemma load_requests_by_version_witness :
  prependFile env_ok (player true []) "http://jf/Videos/a" "A" world0
  = (None, world0,
     [Logged Warn "mpv version is < 0.38, refusing to prepend file"]).
Proof.
  apply (load_requests_by_version env_ok (player true [])
           "http://jf/Videos/a" "A" (of_int 0) world0).
  reflexivity.
Defined.

(** ** The version gate and the first line *)

Lemma IndexByte_lower (s : string) (c : ascii) : -1 <= IndexByte s c.
Proof.
  induction s as [|a s IH]; cbn [IndexByte]; [lia|].
  destruct (Ascii.eqb a c); [lia|].
  destruct (IndexByte s c); lia.
Qed.

Lemma first_line_found (l rest : string) :
  IndexByte l nl = -1 ->
  IndexByte (l ++ String nl rest) nl = Z.of_nat (String.length l) /\
  slice_to (l ++ String nl rest) (Z.of_nat (String.length l)) = l.
Proof.
  unfold slice_to. rewrite Nat2Z.id.
  induction l as [|a l IH]; intros H.
  - cbn. split; reflexivity.
  - cbn [IndexByte] in H.
    destruct (Ascii.eqb a nl) eqn:Ea; [discriminate|].
    pose proof (IndexByte_lower l nl) as Hlow.
    assert (Hl : IndexByte l nl = -1) by (destruct (IndexByte l nl); lia).
    destruct (IH Hl) as [IH1 IH2].
    cbn [append IndexByte String.length substring]. rewrite Ea, IH1, IH2.
    split; [|reflexivity].
    destruct (String.length l); cbn [Z.of_nat]; lia.
Qed.

(** X14: [isOldMpv] reads the first line of the output only: what follows
    the first newline does not change its answer; and an output without a
    newline is answered with not old. *)
Theorem isOldMpv_reads_first_line (l rest : string) :
  IndexByte l nl = -1 ->
  isOldMpv (ExecOk (l ++ String nl rest)) = isOldMpv (ExecOk (l ++ String nl ""))
  /\ isOldMpv (ExecOk l) = false.
Proof.
  intros H. split.
  - rewrite !isOldMpv_version_parts. unfold version_parts.
    destruct (first_line_found l rest H) as [-> ->].
    destruct (first_line_found l "" H) as [-> ->].
    reflexivity.
  - unfold isOldMpv. now rewrite H.
Qed.

Lemma isOldMpv_reads_first_line_witness :
  isOldMpv (ExecOk ("mpv 0.37.0 Copyright" ++ String nl "mpv 0.39.0"))
  = isOldMpv (ExecOk ("mpv 0.37.0 Copyright" ++ String nl ""))
  /\ isOldMpv (ExecOk "mpv 0.37.0 Copyright") = false.
Proof.
  apply (isOldMpv_reads_first_line "mpv 0.37.0 Copyright" "mpv 0.39.0").
  reflexivity.
Defined.

(** ** The teardown *)

(** X15: [close] makes its calls whatever the earlier ones answer: the
    connection is closed if there is one, the process is interrupted and
    waited for if there is a command with a process (waited for also when
    the interrupt fails), and the socket path is always removed, last; each
    failed call leaves one log line and nothing else. *)
Theorem close_makes_every_call (c : Transport.handles) (a : Transport.answers) :
  Transport.calls (Transport.close c a)
  = ((if Transport.has_conn c
      then [Transport.CloseConn (Transport.conn_Close a)] else [])
     ++ (if Transport.has_cmd c && Transport.has_process c
         then [Transport.Interrupt (Transport.process_Signal a);
               Transport.WaitExit (Transport.cmd_Wait a)]
         else [])
     ++ [Transport.RemoveSocket (Transport.socket c) (Transport.os_Remove a)])%list
  /\
  List.length (filter Transport.is_log (Transport.close c a))
  = List.length (filter Transport.failed (Transport.close c a)) /\
  (exists pre post,
     Transport.close c a
     = (pre ++ Transport.RemoveSocket (Transport.socket c)
                 (Transport.os_Remove a) :: post)%list /\
     Transport.calls post = []).
Proof.
  destruct c as [hc hm hp sock], a as [ac asg aw ar].
  unfold Transport.close, Transport.calls.
  cbn [Transport.has_conn Transport.has_cmd Transport.has_process
       Transport.socket Transport.conn_Close Transport.process_Signal
       Transport.cmd_Wait Transport.os_Remove].
  split; [|split].
  - destruct hc, hm, hp, ac, asg, aw, ar; reflexivity.
  - destruct hc, hm, hp, ac, asg, aw, ar; reflexivity.
  - eexists. exists (Transport.logged_unless ar "failed to remove mpv socket").
    split; [rewrite app_assoc; reflexivity|]. now destruct ar.
Qed.

(** ** The report methods of jellyfin/client.go *)

(** X16: [ReportPlaybackStopped] of the package [jellyfin] always calls the
    API, with the position times 10,000,000 in int64 arithmetic, and panics
    when the call fails.  [ReportPlaybackProgress] does the same unless
    less than 3 seconds have passed since [lastProgressReport], in which
    case it returns without a call; it does not set [lastProgressReport],
    so with the zero time there (the value a new [Client] has) no call is
    ever held back. *)
Theorem client_report_outcomes (env : Env) (c : JellyfinClient.Client)
  (item : Item) (pos : Z) (w : World) :
  let ok := report_result env (n_remote w) in
  let early :=
    Sub (time_Now env (n_clock w)) (JellyfinClient.lastProgressReport c)
    <? Second * 3 in
  fst (fst (JellyfinClient.ReportPlaybackStopped env c item pos w))
  = (if ok then Return None else Panic "err") /\
  reports_of (snd (JellyfinClient.ReportPlaybackStopped env c item pos w))
  = [(Stopped, item, wrap_int (pos * 10000000), ok)] /\
  fst (fst (JellyfinClient.ReportPlaybackProgress env c item pos w))
  = (if early || ok then Return None else Panic "err") /\
  reports_of (snd (JellyfinClient.ReportPlaybackProgress env c item pos w))
  = (if early then []
     else [(Progress, item, wrap_int (pos * 10000000), ok)]) /\
  (JellyfinClient.lastProgressReport c = zeroTime ->
   0 <= time_Now env (n_clock w) -> early = false) /\
  (minInt64 <= pos * 10000000 <= maxInt64 ->
   wrap_int (pos * 10000000) = pos * 10000000) /\
  wrap_int (922337203686 * 10000000) < 0.
Proof.
  cbv zeta. split; [|split; [|split; [|split; [|split; [|split]]]]].
  - unfold JellyfinClient.ReportPlaybackStopped, bind, remote_report.
    destruct (report_result env (n_remote w)); reflexivity.
  - unfold JellyfinClient.ReportPlaybackStopped, bind, remote_report.
    destruct (report_result env (n_remote w)); reflexivity.
  - unfold JellyfinClient.ReportPlaybackProgress, bind, read_clock,
      remote_report.
    destruct (Sub (time_Now env (n_clock w))
                (JellyfinClient.lastProgressReport c) <? Second * 3);
      [reflexivity|].
    cbn [n_remote orb]. destruct (report_result env (n_remote w)); reflexivity.
  - unfold JellyfinClient.ReportPlaybackProgress, bind, read_clock,
      remote_report.
    destruct (Sub (time_Now env (n_clock w))
                (JellyfinClient.lastProgressReport c) <? Second * 3);
      [reflexivity|].
    cbn [n_remote]. destruct (report_result env (n_remote w)); reflexivity.
  - intros -> Hnow. apply Z.ltb_ge.
    unfold Sub, zeroTime, Second, minInt64, maxInt64.
    replace (time_Now env (n_clock w) - -62135596800 * 1000000000 <? - 2 ^ 63)
      with false by (symmetry; apply Z.ltb_ge; lia).
    replace (time_Now env (n_clock w) - -62135596800 * 1000000000 >? 2 ^ 63 - 1)
      with true by (symmetry; apply Z.gtb_lt; lia).
    lia.
  - apply wrap_int_small.
  - reflexivity.
Qed.

Lemma client_report_outcomes_witness :
  (Sub (time_Now env_ok (n_clock world0)) zeroTime <? Second * 3) = false /\
  wrap_int (90 * 10000000) = 90 * 10000000.
Proof.
  pose proof (client_report_outcomes env_ok
                {| JellyfinClient.UserId := "u"; JellyfinClient.Token := "t";
                   JellyfinClient.lastProgressReport := zeroTime |}
                itemA 90 world0) as H.
  cbv zeta in H. destruct H as (_ & _ & _ & _ & H1 & H2 & _).
  split.
  - apply H1; [reflexivity|cbn; discriminate].
  - apply H2. unfold minInt64, maxInt64. lia.
Defined.

(** ** Seconds and ticks *)

(** X19: on positions of whole seconds, below 16384 s, the two conversions
    are exact and inverse to each other: [ticksToSeconds] of n times
    10,000,000 ticks is n seconds, and [secondsToTicks] of that is the
    ticks again. *)
Theorem whole_seconds_round_trip (n : Z) :
  0 <= n < 16384 ->
  ticksToSeconds (n * 10000000) = of_int n /\
  secondsToTicks (ticksToSeconds (n * 10000000)) = n * 10000000.
Proof.
  intros H.
  assert (H1 : ticksToSeconds (n * 10000000) = of_int n).
  { assert (Hs : (match ticksToSeconds (n * 10000000), of_int n with
                  | S754_zero a, S754_zero b => Bool.eqb a b
                  | S754_finite a m e, S754_finite b m' e' =>
                      Bool.eqb a b && Pos.eqb m m' && Z.eqb e e'
                  | _, _ => false
                  end) = true).
    { apply (holds_on_sound
               (fun k => match ticksToSeconds (k * 10000000), of_int k with
                         | S754_zero a, S754_zero b => Bool.eqb a b
                         | S754_finite a m e, S754_finite b m' e' =>
                             Bool.eqb a b && Pos.eqb m m' && Z.eqb e e'
                         | _, _ => false
                         end) 16384 0); [vm_compute; reflexivity|lia]. }
    destruct (ticksToSeconds (n * 10000000)) as [a| | |a m e],
             (of_int n) as [b| | |b m' e']; try discriminate.
    - apply Bool.eqb_prop in Hs. now subst.
    - apply andb_prop in Hs as [Hs He]. apply andb_prop in Hs as [Ha Hm].
      apply Bool.eqb_prop in Ha. apply Pos.eqb_eq in Hm. apply Z.eqb_eq in He.
      now subst. }
  split; [exact H1|]. rewrite H1. apply whole_seconds_to_ticks. exact H.
Qed.

Lemma whole_seconds_round_trip_witness :
  ticksToSeconds (90 * 10000000) = of_int 90 /\
  secondsToTicks (ticksToSeconds (90 * 10000000)) = 90 * 10000000.
Proof.
  apply (whole_seconds_round_trip 90). lia.
Defined.

(** ** What a turn of the loop keeps *)

Lemma handle_line_frame (env : Env) (c : mpv) (client : Client)
  (items : list Item) (ids : list Z) (st st' : session) (l : line)
  (w w' : World) (tr : list effect) :
  handle_line env c client items ids st l w = (Continue st', w', tr) ->
  (event_is "start-file" l = false ->
   item st' = item st /\ skippableSegments st' = skippableSegments st) /\
  (event_is "seek" l = false -> time_pos_of l = None ->
   lastProgressUpdate st' = lastProgressUpdate st) /\
  (In (item st) items -> In (item st') items) /\
  Forall (fun r => item_of r = item st') (reports_of tr).
Proof.
  destruct l as [|raw|msg]; cbn [handle_line event_is time_pos_of].
  - intros H. injection H as <- _ <-. repeat split; auto; constructor.
  - intros H. cbn in H. injection H as <- _ <-.
    repeat split; auto; constructor.
  - unfold dispatch.
    destruct (String.eqb (Event msg) "property-change") eqn:E1.
    { apply String.eqb_eq in E1. rewrite E1. cbn [String.eqb andb].
      destruct (String.eqb (Name msg) "time-pos") eqn:E2.
      - destruct (Data msg) as [| | |data| | |] eqn:HD;
          try (unfold on_time_pos; rewrite HD; cbn;
               intros H; injection H as <- _ <-;
               repeat split; auto; constructor).
        destruct (on_time_pos_numeric env c st msg data w HD)
          as (w2 & t2 & E & HR & _).
        cbv zeta in E, HR. rewrite E. intros H. injection H as <- _ <-.
        rewrite HR. cbn [item skippableSegments].
        split; [auto|]. split; [discriminate|]. split; [auto|].
        destruct (elapsed env st (n_clock w) >? 3 * Second);
          repeat constructor.
      - cbn. intros H. injection H as <- _ <-.
        repeat split; auto; constructor. }
    destruct (String.eqb (Event msg) "start-file") eqn:E2.
    { intros H.
      destruct (on_start_file_cases env c client items ids st msg w)
        as [(st2 & w2 & t2 & E & _ & HLU & _ & HR)|(r & w2 & t2 & E & _)];
        rewrite E in H; [|discriminate].
      injection H as <- <- <-. rewrite HR.
      split; [discriminate|]. split; [auto|]. split; [|repeat constructor].
      intros _.
      destruct (index_at ids (wrap_int (PlaylistID msg - 1))) as [idx|] eqn:Hi;
        [destruct (index_at items idx) as [it|] eqn:Hit|].
      - destruct (on_start_file_resolved env c client items ids st msg w idx
                    it Hi Hit) as (w3 & t3 & E3 & _).
        rewrite E3 in E. injection E as <- _ _. cbn [item].
        unfold index_at in Hit. destruct (idx <? 0); [discriminate|].
        now apply nth_error_In in Hit.
      - unfold on_start_file in E. rewrite Hi, Hit in E.
        destruct (_ >=? _) in E; discriminate.
      - unfold on_start_file in E. rewrite Hi in E.
        destruct (_ >=? _) in E; discriminate. }
    destruct (String.eqb (Event msg) "seek") eqn:E3.
    { cbn. intros H. injection H as <- _ <-.
      repeat split; auto; try discriminate; constructor. }
    destruct (_ || _).
    + unfold bind, slog, emit, ReportPlaybackStopped, remote_report.
      destruct (report_result env (n_remote w)); cbn -[secondsToTicks];
        intros H; injection H as <- _ <-;
        repeat split; auto; repeat constructor.
    + cbn. intros H. injection H as <- _ <-.
      repeat split; auto; constructor.
Qed.

(** X20: what each kind of line can change.  Only a start-file event
    changes the current item and the segment set; only a seek event or a
    numeric time-pos event changes the debounce timestamp; the current
    item stays one of the items of the playlist, and every report made in
    a turn names the item that is current after the turn. *)
Theorem turn_keeps_session_parts (env : Env) (c : mpv) (client : Client)
  (items : list Item) (ids : list Z) (st st' : session) (l : line)
  (w w' : World) (tr : list effect) :
  handle_line env c client items ids st l w = (Continue st', w', tr) ->
  (event_is "start-file" l = false ->
   item st' = item st /\ skippableSegments st' = skippableSegments st) /\
  (event_is "seek" l = false -> time_pos_of l = None ->
   lastProgressUpdate st' = lastProgressUpdate st) /\
  (In (item st) items -> In (item st') items) /\
  Forall (fun r => item_of r = item st') (reports_of tr).
Proof.
  apply handle_line_frame.
Qed.

Lemma turn_keeps_session_parts_witness :
  (event_is "start-file" (MsgLine (event "end-file")) = false ->
   item (session0 itemA 0) = item (session0 itemA 0) /\
   skippableSegments (session0 itemA 0) = skippableSegments (session0 itemA 0))
  /\
  (event_is "seek" (MsgLine (event "end-file")) = false ->
   time_pos_of (MsgLine (event "end-file")) = None ->
   lastProgressUpdate (session0 itemA 0) = lastProgressUpdate (session0 itemA 0))
  /\
  (In (item (session0 itemA 0)) [itemA] -> In (item (session0 itemA 0)) [itemA])
  /\
  Forall (fun r => item_of r = item (session0 itemA 0))
    (reports_of [Logged Info "received"; Reported Stopped itemA 0 true;
                 Logged Info "reported playback stopped"]).
Proof.
  apply (turn_keeps_session_parts env_ok (player false []) the_client
           [itemA] [0] (session0 itemA 0) (session0 itemA 0)
           (MsgLine (event "end-file")) world0
           {| n_rand := 0; n_write := 0; n_clock := 0; n_remote := 1 |}
           [Logged Info "received"; Reported Stopped itemA 0 true;
            Logged Info "reported playback stopped"]).
  reflexivity.
Defined.

(** X21: the current item stays one of the items of the playlist through
    any number of turns, and every report made on the way names an item of
    the playlist. *)
Theorem reports_name_playlist_items (env : Env) (c : mpv) (client : Client)
  (items : list Item) (ids : list Z) (lines : list line) :
  forall st w,
    In (item st) items ->
    Forall (fun r => In (item_of r) items)
      (reports_of (snd (event_loop env c client items ids lines st w))).
Proof.
  induction lines as [|l rest IH]; intros st w Hin.
  - cbn [event_loop]. destruct (scannerErr c); constructor.
  - cbn [event_loop]. unfold bind.
    destruct (handle_line env c client items ids st l w) as [[n w'] tr] eqn:E.
    destruct n as [st'|r].
    + destruct (handle_line_frame env c client items ids st st' l w w' tr E)
        as (_ & _ & Hitem & HR).
      specialize (IH st' w' (Hitem Hin)).
      destruct (event_loop env c client items ids rest st' w') as [[r w2] t2].
      cbn [snd] in *. rewrite reports_of_app. apply Forall_app. split; [|exact IH].
      eapply Forall_impl; [|exact HR]. intros r0 ->. exact (Hitem Hin).
    + destruct (handle_line_exit env c client items ids st l w w' r tr E)
        as (msg & _ & _ & Hs).
      destruct (on_start_file_exit env c client items ids st msg w w' r tr Hs)
        as (_ & _ & HL).
      apply logged_only_nothing in HL as (_ & HR & _).
      cbn [snd ret]. rewrite app_nil_r, HR. constructor.
Qed.

Lemma reports_name_playlist_items_witness :
  Forall (fun r => In (item_of r) [itemA; itemB])
    (reports_of
       (snd (event_loop env_ok (player false []) the_client [itemA; itemB]
               [0; 1]
               [MsgLine (start_file 2); MsgLine (event "end-file")]
               (session0 itemA 0) world0))).
Proof.
  apply (reports_name_playlist_items env_ok (player false []) the_client
           [itemA; itemB] [0; 1]
           [MsgLine (start_file 2); MsgLine (event "end-file")]
           (session0 itemA 0) world0).
  left. reflexivity.
Defined.
